(** * voice_clone.py: the long-text voice cloning pipeline

    A shallow embedding of [src/voice_clone.py] (preset resolution, the
    sentence splitter, the per-segment synthesis loop with disk staging, the
    FFmpeg join and the command-line driver), and the properties of the
    specification proved or refuted on it.

    Conventions.
    - A Python [str] holding text is a [list N] of Unicode code points, so
      that [str.strip] sees every whitespace code point.
    - File-system paths and file contents are byte strings ([string]).
    - The file system is a finite map from path strings to nodes; the
      external collaborators (the XTTS engine, FFmpeg, [tempfile], the
      platform's [abspath], [pathlib]'s suffix, UTF-8 decoding) are
      parameters of the functions that call them.
    - A function with effects is a state-and-exception computation over the
      [world] (file system plus the trace of external interactions). *)

From Stdlib Require Import Floats Ascii Sorted.
From stdpp Require Import gmap strings list fin_maps.

Set Warnings "-inexact-float".

(** ** Python text *)

Module Text.

(** A Python string of text: a sequence of code points. *)
Abbreviation str := (list N).

(** The code points of an ASCII literal. *)
Definition py (s : string) : str :=
  map Ascii.N_of_ascii (String.list_ascii_of_string s).

(** [str.isspace] on one code point, the set [str.strip()] removes
    (CPython's [_PyUnicode_IsWhitespace]). *)
Definition isspace (c : N) : bool :=
  ((0x09 <=? c) && (c <=? 0x0D) || (0x1C <=? c) && (c <=? 0x20)
   || (c =? 0x85) || (c =? 0xA0) || (c =? 0x1680)
   || (0x2000 <=? c) && (c <=? 0x200A)
   || (c =? 0x2028) || (c =? 0x2029) || (c =? 0x202F)
   || (c =? 0x205F) || (c =? 0x3000))%N.

Fixpoint lstrip (s : str) : str :=
  match s with
  | c :: s' => if isspace c then lstrip s' else s
  | [] => []
  end.

Definition rstrip (s : str) : str := rev (lstrip (rev s)).

(** [s.strip()] *)
Definition strip (s : str) : str := rstrip (lstrip s).

(** Truth value of a string: non-empty. *)
Definition truthy (s : str) : bool :=
  match s with [] => false | _ => true end.

(** [char in '.!?'] for a one-character [char]. *)
Definition is_terminator (c : N) : bool :=
  ((c =? 0x2E) || (c =? 0x21) || (c =? 0x3F))%N.

End Text.
Import Text.

(** ** Generation presets (lines 84-107 and 348-360) *)

Module Presets.

Record gen_params := GenParams {
  temperature : float;
  repetition_penalty : float;
  speed : float
}.

(** The [choices] of [--preset]. *)
Inductive preset := stable | neutral | expressive | extreme.

Definition GENERATION_PRESETS (p : preset) : gen_params :=
  match p with
  | stable => GenParams 0.1 20.0 1.0
  | neutral => GenParams 0.75 10.0 1.0
  | expressive => GenParams 0.85 5.0 1.0
  | extreme => GenParams 0.95 2.0 1.0
  end.

Definition set_temperature (v : float) (g : gen_params) : gen_params :=
  GenParams v (repetition_penalty g) (speed g).
Definition set_repetition_penalty (v : float) (g : gen_params) : gen_params :=
  GenParams (temperature g) v (speed g).
Definition set_speed (v : float) (g : gen_params) : gen_params :=
  GenParams (temperature g) (repetition_penalty g) v.

(** Lines 348-360 of [main]: the assignments to [gen_params], in order. *)
Definition resolve_gen_params (arg_preset : option preset)
    (arg_temperature arg_repetition_penalty arg_speed : option float)
    : gen_params :=
  let gen_params := GENERATION_PRESETS neutral in
  let gen_params :=
    match arg_preset with
    | Some p => GENERATION_PRESETS p
    | None => gen_params
    end in
  let gen_params :=
    match arg_temperature with
    | Some v => set_temperature v gen_params
    | None => gen_params
    end in
  let gen_params :=
    match arg_repetition_penalty with
    | Some v => set_repetition_penalty v gen_params
    | None => gen_params
    end in
  match arg_speed with
  | Some v => set_speed v gen_params
  | None => gen_params
  end.

(** The resolution order in the words of the specification: the base is
    the named preset, or neutral; each supplied override replaces its own
    field of the base. *)
Definition resolve_spec (arg_preset : option preset)
    (arg_temperature arg_repetition_penalty arg_speed : option float)
    : gen_params :=
  let base := GENERATION_PRESETS (default neutral arg_preset) in
  {| temperature := default (temperature base) arg_temperature;
     repetition_penalty := default (repetition_penalty base) arg_repetition_penalty;
     speed := default (speed base) arg_speed |}.

End Presets.

(** ** The sentence splitter (lines 175-185) *)

Module Segmenter.

(** The [for char in text] loop: [sentences] and [current_chunk] are the
    loop's two variables. The closing threshold is the literal 20 of
    line 181. *)
Fixpoint scan (text : str) (sentences : list str) (current_chunk : str)
    : list str * str :=
  match text with
  | [] => (sentences, current_chunk)
  | char :: text' =>
      let current_chunk := current_chunk ++ [char] in
      if is_terminator char && (20 <=? length current_chunk)
      then scan text' (sentences ++ [strip current_chunk]) []
      else scan text' sentences current_chunk
  end.

(** Lines 176-185. [max_chunk_length] is the parameter of
    [process_long_text]; the splitter never reads it. *)
Definition split_sentences (max_chunk_length : nat) (text : str) : list str :=
  let '(sentences, current_chunk) := scan text [] [] in
  if truthy (strip current_chunk)
  then sentences ++ [strip current_chunk]
  else sentences.

End Segmenter.

(** ** Paths and number formatting *)

Module Path.

Definition sep : ascii := "/"%char.

Definition chars (s : string) : list ascii := String.list_ascii_of_string s.
Definition of_chars (l : list ascii) : string := String.string_of_list_ascii l.

Definition startswith_sep (b : string) : bool :=
  match b with
  | String c _ => Ascii.eqb c sep
  | EmptyString => false
  end.

Fixpoint endswith_sep (p : string) : bool :=
  match p with
  | EmptyString => false
  | String c EmptyString => Ascii.eqb c sep
  | String _ p' => endswith_sep p'
  end.

(** [os.path.join(path, b)] on POSIX. *)
Definition join (path b : string) : string :=
  if startswith_sep b then b
  else if String.eqb path "" || endswith_sep path then path +:+ b
  else path +:+ "/" +:+ b.

Fixpoint drop_while {A} (f : A -> bool) (l : list A) : list A :=
  match l with
  | x :: l' => if f x then drop_while f l' else l
  | [] => []
  end.

Definition is_sep (c : ascii) : bool := Ascii.eqb c sep.

(** [os.path.dirname(p)] on POSIX: the head is [p] up to its last
    separator; trailing separators are stripped from it unless it
    consists of separators only. *)
Definition dirname (p : string) : string :=
  let head := rev (drop_while (fun c => negb (is_sep c)) (rev (chars p))) in
  if forallb is_sep head then of_chars head
  else of_chars (rev (drop_while is_sep (rev head))).

(** The parsed parts of [pathlib.Path(p)] below the root: empty and
    ["."] components are dropped. *)
Fixpoint split_sep (l : list ascii) (cur : list ascii) : list (list ascii) :=
  match l with
  | [] => [rev cur]
  | c :: l' => if is_sep c then rev cur :: split_sep l' [] else split_sep l' (c :: cur)
  end.

Definition is_dot (c : ascii) : bool := Ascii.eqb c "."%char.

Definition path_name (p : string) : list ascii :=
  let parts :=
    filter (fun part => part <> [] /\ part <> ["."%char]) (split_sep (chars p) []) in
  List.last parts [].

(** [pathlib.Path(p).suffix]: from the last dot of the name, unless that
    dot is the first or the last character of the name. *)
Definition suffix (p : string) : string :=
  let name := path_name p in
  let ext := rev (drop_while (fun c => negb (is_dot c)) (rev name)) in
  (* [ext] is the name up to and including its last dot *)
  let i := length ext - 1 in
  if (0 <? i) && (i <? length name - 1) then of_chars (drop i name) else "".

(** [str.lower] on ASCII letters. *)
Definition lower_char (c : ascii) : ascii :=
  let n := nat_of_ascii c in
  if (65 <=? n) && (n <=? 90) then ascii_of_nat (n + 32) else c.

Definition lower (s : string) : string := of_chars (map lower_char (chars s)).

Definition endswith (s suf : string) : bool :=
  let n := String.length s in
  let k := String.length suf in
  (k <=? n) && String.eqb (String.substring (n - k) k s) suf.

(** [s.replace('\\', '/')] *)
Definition replace_backslash (s : string) : string :=
  of_chars (map (fun c => if Ascii.eqb c "\"%char then sep else c) (chars s)).

(** Decimal digits of [n], most significant first. *)
Fixpoint dec_go (fuel n : nat) (acc : string) : string :=
  match fuel with
  | 0 => acc
  | S fuel' =>
      let acc' := String (ascii_of_nat (48 + n mod 10)) acc in
      if n / 10 =? 0 then acc' else dec_go fuel' (n / 10) acc'
  end.

Definition format_d (n : nat) : string := dec_go (S n) n "".

Fixpoint zeros (k : nat) : string :=
  match k with
  | 0 => ""
  | S k' => String "0"%char (zeros k')
  end.

(** [f"{n:04d}"] for [n >= 0]. *)
Definition format_04d (n : nat) : string :=
  let s := format_d n in zeros (4 - String.length s) +:+ s.

End Path.

(** ** The world: file system, external collaborators, exceptions *)

Module OS.

Import Presets.

Inductive node := Dir | File (data : string).

(** The keyword arguments of one [tts.tts_to_file] call. *)
Record tts_call := TtsCall {
  call_text : str;
  speaker_wav : string;
  language : string;
  file_path : string;
  kwargs : gen_params
}.

(** External interactions, in the order they happen. *)
Inductive event :=
| Synthesis (c : tts_call) (ok : bool)
| Subprocess (args : list string) (ok : bool).

Record world := World {
  fs : gmap string node;
  trace : list event
}.

(** The loaded XTTS model: on a call it either produces the audio it
    writes to [file_path], or raises and writes nothing. Its answer may
    depend on everything that happened before. *)
Definition tts_model := world -> tts_call -> option string.

(** [subprocess.run(args, check=True)] of an FFmpeg command whose last
    argument is the output file: the bytes written on exit status 0,
    [None] when the tool is missing or exits non-zero. *)
Definition process_runner := world -> list string -> option string.

Inductive exn :=
| SystemExit (code : Z)
| EngineError            (* raised inside [tts.tts_to_file] *)
| CalledProcessError     (* [subprocess.run]: tool missing or non-zero exit *)
| ModelLoadError         (* raised inside [load_model] *)
| FileError              (* [OSError]: [open], [read] or [makedirs] refused *)
| UnicodeDecodeError.

Inductive outcome (A : Type) :=
| Returned (a : A)
| Raised (e : exn).
Arguments Returned {A} a.
Arguments Raised {A} e.

(** Computations over the world that return or raise. *)
Definition M (A : Type) : Type := world -> outcome A * world.

Definition ret {A} (a : A) : M A := fun w => (Returned a, w).
Definition raise {A} (e : exn) : M A := fun w => (Raised e, w).
Definition bind {A B} (m : M A) (k : A -> M B) : M B :=
  fun w =>
    match m w with
    | (Returned a, w') => k a w'
    | (Raised e, w') => (Raised e, w')
    end.

(** [except Exception] does not catch [SystemExit]. *)
Definition is_Exception (e : exn) : bool :=
  match e with SystemExit _ => false | _ => true end.

(** [try: body  except Exception: handler] *)
Definition try_except {A} (body : M A) (handler : exn -> M A) : M A :=
  fun w =>
    match body w with
    | (Raised e, w') => if is_Exception e then handler e w' else (Raised e, w')
    | r => r
    end.

Definition exists_ (w : world) (p : string) : bool :=
  match fs w !! p with Some _ => true | None => false end.

(** [os.makedirs(p)], taken to succeed; the ancestors it creates are not
    tracked. *)
Definition makedirs (p : string) (w : world) : world :=
  World (<[p := Dir]> (fs w)) (trace w).

Definition write_file (p data : string) (w : world) : world :=
  World (<[p := File data]> (fs w)) (trace w).

Definition remove (p : string) (w : world) : world :=
  World (delete p (fs w)) (trace w).

Definition log (e : event) (w : world) : world :=
  World (fs w) (trace w ++ [e]).

(** [tts.tts_to_file(text=.., speaker_wav=.., language=.., file_path=.., **kwargs)] *)
Definition tts_to_file (tts : tts_model) (c : tts_call) : M unit :=
  fun w =>
    match tts w c with
    | Some audio => (Returned (), log (Synthesis c true) (write_file (file_path c) audio w))
    | None => (Raised EngineError, log (Synthesis c false) w)
    end.

(** [subprocess.run(args, check=True, capture_output=True)] *)
Definition subprocess_run (run : process_runner) (args : list string) : M unit :=
  fun w =>
    match run w args with
    | Some out => (Returned (), log (Subprocess args true) (write_file (List.last args "") out w))
    | None => (Raised CalledProcessError, log (Subprocess args false) w)
    end.

(** *** Refusals of the file system

    [makedirs] and [write_file] above always succeed. The operations below
    are the strict reading of the same calls: the ones the operating system
    refuses raise. *)

Definition is_file (w : world) (p : string) : bool :=
  match fs w !! p with Some (File _) => true | _ => false end.

Definition is_dir (w : world) (p : string) : bool :=
  match fs w !! p with Some Dir => true | _ => false end.

(** [os.makedirs(p)] for a [p] that does not exist goes up, through
    [os.path.split], to the nearest ancestor that exists and creates the
    directories below it; the [mkdir] below a regular file is refused.
    Each head is shorter than its path, so a fuel of the length of [p] is
    never used up. *)
Fixpoint makedirs_refused (fuel : nat) (w : world) (p : string) : bool :=
  match fuel with
  | 0 => false
  | S fuel' =>
      let head := Path.dirname p in
      if String.eqb head "" || String.eqb head p then false
      else
        match fs w !! head with
        | Some (File _) => true
        | Some Dir => false
        | None => makedirs_refused fuel' w head
        end
  end.

Definition makedirs_strict (p : string) : M unit :=
  fun w =>
    if makedirs_refused (String.length p) w p then (Raised FileError, w)
    else (Returned (), makedirs p w).

(** [open(p, 'w')] is refused when the directory of [p] is missing or is
    not a directory, and when [p] itself is a directory. A [p] without a
    directory part is in the working directory. *)
Definition open_refused (w : world) (p : string) : bool :=
  let parent := Path.dirname p in
  negb (String.eqb parent "") && negb (is_dir w parent) || is_dir w p.

(** [open(p, 'w')]: the file is created or truncated. *)
Definition open_for_writing (p : string) : M unit :=
  fun w =>
    if open_refused w p then (Raised FileError, w) else (Returned (), write_file p "" w).

End OS.

Notation "x <-- m ;; k" := (OS.bind m (fun x => k))
  (at level 100, m at next level, right associativity).
Notation "m ;;; k" := (OS.bind m (fun _ => k))
  (at level 100, right associativity).

(** ** The pipeline (lines 37-80 and 110-396) *)

Module Pipeline.

Import Presets OS Segmenter.

(** What [parser.parse_args()] leaves in [args]. *)
Record namespace := Namespace {
  reference : string;
  arg_text : option str;
  text_file : option string;
  output : string;
  arg_language : string;
  arg_preset : option preset;
  arg_temperature : option float;
  arg_repetition_penalty : option float;
  arg_speed : option float
}.

(** The option values collected from the command line so far; a field is
    [None] until its option is met. *)
Record cmdline := Cmdline {
  opt_reference : option string;
  opt_text : option str;
  opt_text_file : option string;
  opt_output : option string;
  opt_language : option string;
  opt_preset : option preset;
  opt_temperature : option float;
  opt_repetition_penalty : option float;
  opt_speed : option float
}.

Definition no_options : cmdline := Cmdline None None None None None None None None None.

(** One argument of the command line as argparse takes it in: an option
    string with its value. The three [type=float] options carry the result
    of the conversion, [None] when the value is not a float. *)
Inductive argument :=
| Help                                   (* -h, --help *)
| Reference (v : string)                 (* --reference, -r *)
| Text (v : str)                         (* --text, -t *)
| TextFile (v : string)                  (* --text_file, -f *)
| Output (v : string)                    (* --output, -o *)
| Language (v : string)                  (* --language, -l *)
| Preset (v : string)                    (* --preset *)
| Temperature (v : option float)         (* --temperature *)
| RepetitionPenalty (v : option float)   (* --repetition_penalty *)
| Speed (v : option float)               (* --speed *)
| Malformed       (* a known option without its value; [-hx], [--help=x] *)
| Ambiguous                              (* a prefix of several options, as [--t] *)
| Unrecognized (s : string).             (* anything the parser does not know *)

Definition language_choices : list string :=
  ["en"; "es"; "fr"; "de"; "it"; "pt"; "pl"; "tr"; "ru"; "nl"; "cs"; "ar";
   "zh-cn"; "ja"; "hu"; "ko"].

Definition preset_choice (s : string) : option preset :=
  if String.eqb s "stable" then Some stable
  else if String.eqb s "neutral" then Some neutral
  else if String.eqb s "expressive" then Some expressive
  else if String.eqb s "extreme" then Some extreme
  else None.

(** [parser.error(..)] and argparse's own failures leave with status 2. *)
Definition parser_error {A} : M A := raise (SystemExit 2).

(** The test argparse makes on an argument when it reaches it: the value
    is among the [choices], the value converts to a float, the option has
    its value. *)
Definition acceptable (a : argument) : bool :=
  match a with
  | Language v => bool_decide (v ∈ language_choices)
  | Preset v => match preset_choice v with Some _ => true | None => false end
  | Temperature None | RepetitionPenalty None | Speed None => false
  | Malformed | Ambiguous => false
  | _ => true
  end.

(** The store action of an accepted argument: a later value replaces an
    earlier one. *)
Definition store (c : cmdline) (a : argument) : cmdline :=
  match a with
  | Reference v =>
      Cmdline (Some v) (opt_text c) (opt_text_file c) (opt_output c) (opt_language c)
        (opt_preset c) (opt_temperature c) (opt_repetition_penalty c) (opt_speed c)
  | Text v =>
      Cmdline (opt_reference c) (Some v) (opt_text_file c) (opt_output c) (opt_language c)
        (opt_preset c) (opt_temperature c) (opt_repetition_penalty c) (opt_speed c)
  | TextFile v =>
      Cmdline (opt_reference c) (opt_text c) (Some v) (opt_output c) (opt_language c)
        (opt_preset c) (opt_temperature c) (opt_repetition_penalty c) (opt_speed c)
  | Output v =>
      Cmdline (opt_reference c) (opt_text c) (opt_text_file c) (Some v) (opt_language c)
        (opt_preset c) (opt_temperature c) (opt_repetition_penalty c) (opt_speed c)
  | Language v =>
      Cmdline (opt_reference c) (opt_text c) (opt_text_file c) (opt_output c) (Some v)
        (opt_preset c) (opt_temperature c) (opt_repetition_penalty c) (opt_speed c)
  | Preset v =>
      Cmdline (opt_reference c) (opt_text c) (opt_text_file c) (opt_output c)
        (opt_language c) (preset_choice v) (opt_temperature c) (opt_repetition_penalty c)
        (opt_speed c)
  | Temperature v =>
      Cmdline (opt_reference c) (opt_text c) (opt_text_file c) (opt_output c)
        (opt_language c) (opt_preset c) v (opt_repetition_penalty c) (opt_speed c)
  | RepetitionPenalty v =>
      Cmdline (opt_reference c) (opt_text c) (opt_text_file c) (opt_output c)
        (opt_language c) (opt_preset c) (opt_temperature c) v (opt_speed c)
  | Speed v =>
      Cmdline (opt_reference c) (opt_text c) (opt_text_file c) (opt_output c)
        (opt_language c) (opt_preset c) (opt_temperature c) (opt_repetition_penalty c) v
  | Help | Malformed | Ambiguous | Unrecognized _ => c
  end.

(** argparse goes through the arguments from left to right: [-h] prints
    the help and leaves with status 0 at once, an argument that fails its
    test leaves with status 2 at once, an unknown argument is set aside
    ([extras]) and the others are stored. *)
Fixpoint consume (argv : list argument) (c : cmdline) (extras : bool)
    : outcome (cmdline * bool) :=
  match argv with
  | [] => Returned (c, extras)
  | Help :: _ => Raised (SystemExit 0)
  | Unrecognized _ :: argv' => consume argv' c true
  | a :: argv' =>
      if acceptable a then consume argv' (store c a) extras else Raised (SystemExit 2)
  end.

Definition is_ambiguous (a : argument) : bool :=
  match a with Ambiguous => true | _ => false end.

(** Lines 250-316, [parser.parse_args()]: after the arguments are
    consumed, the required [--reference] must have been met and no unknown
    argument may be left; [--output] and [--language] have defaults.
    Up to Python 3.11 argparse looks for ambiguous prefixes in the whole
    command line before it consumes anything ([ambiguity_first]); later
    versions refuse an ambiguous prefix where it stands. *)
Definition parse_args (ambiguity_first : bool) (argv : list argument) : M namespace :=
  fun w =>
    if ambiguity_first && existsb is_ambiguous argv then parser_error w
    else
      match consume argv no_options false with
      | Raised e => (Raised e, w)
      | Returned (c, extras) =>
          match opt_reference c with
          | None => parser_error w
          | Some reference =>
              if extras then parser_error w
              else
                (Returned
                   (Namespace reference (opt_text c) (opt_text_file c)
                      (default "output.wav" (opt_output c)) (default "en" (opt_language c))
                      (opt_preset c) (opt_temperature c) (opt_repetition_penalty c)
                      (opt_speed c)),
                 w)
          end
      end.

(** Truth value of an optional string argument: given and non-empty. *)
Definition given_text (o : option str) : bool :=
  match o with Some t => truthy t | None => false end.
Definition given_path (o : option string) : bool :=
  match o with Some p => negb (String.eqb p "") | None => false end.

Definition supported_formats : list string := [".wav"; ".mp3"; ".flac"; ".ogg"; ".m4a"].

(** Lines 37-50. *)
Definition validate_reference_audio (audio_path : string) (w : world) : bool :=
  if negb (exists_ w audio_path) then false
  else
    let ext := Path.lower (Path.suffix audio_path) in
    if negb (bool_decide (ext ∈ supported_formats)) then false
    else true.

Definition newline : string := String "010"%char "".

Section Environment.

(** [os.path.abspath], which depends on the working directory. *)
Variable abspath : string -> string.
(** The FFmpeg executable as seen through [subprocess.run]. *)
Variable ffmpeg : process_runner.
(** The name [tempfile.NamedTemporaryFile] picks. *)
Variable mktemp : world -> string.
(** Decoding of a file's bytes as UTF-8. *)
Variable utf8_decode : string -> option str.
(** [TTS(..).to(device)]: the model, or a failure to load it. *)
Variable TTS : world -> option tts_model.
(** Whether the argparse of the interpreter looks for ambiguous prefixes
    before anything else. *)
Variable ambiguity_first : bool.

(** Lines 53-80. *)
Definition auto_convert_to_wav (audio_path : string) : M (string * bool) :=
  if Path.endswith (Path.lower audio_path) ".wav" then ret (audio_path, false)
  else fun w =>
    let temp_wav_path := mktemp w in
    let w := write_file temp_wav_path "" w in
    try_except
      (subprocess_run ffmpeg
         ["ffmpeg"; "-i"; audio_path; "-y"; "-acodec"; "pcm_s16le"; "-ar"; "22050";
          "-ac"; "1"; temp_wav_path];;;
       ret (temp_wav_path, true))
      (fun _ w =>
         let w := if exists_ w temp_wav_path then remove temp_wav_path w else w in
         (Returned (audio_path, false), w))
      w.

(** Lines 19-34. *)
Definition load_model : M tts_model :=
  fun w =>
    match TTS w with
    | Some tts => (Returned tts, w)
    | None => (Raised ModelLoadError, w)
    end.

(** Lines 110-146. *)
Definition clone_voice (tts : tts_model) (reference_audio : string) (text : str)
    (output_path language : string) (kwargs : gen_params) : M string :=
  tts_to_file tts (TtsCall text reference_audio language output_path kwargs);;;
  ret output_path.

(** Line 167. *)
Definition parts_dir_of (output_path : string) : string :=
  Path.join (Path.dirname (abspath output_path)) "voice_parts".

(** Line 199, for the loop index [i]. *)
Definition part_filename (parts_dir : string) (i : nat) : string :=
  Path.join parts_dir ("part_" +:+ Path.format_04d (i + 1) +:+ ".wav").

(** Lines 195-220: [for i, sentence in enumerate(sentences)], from
    index [i] on. *)
Fixpoint synthesize_parts (tts : tts_model) (reference_audio language : string)
    (kwargs : gen_params) (parts_dir : string) (i : nat) (sentences : list str)
    (temp_wav_files : list string) (w : world) : list string * world :=
  match sentences with
  | [] => (temp_wav_files, w)
  | sentence :: rest =>
      let continue :=
        synthesize_parts tts reference_audio language kwargs parts_dir (S i) rest in
      if negb (truthy (strip sentence)) then continue temp_wav_files w
      else
        let part_filename := part_filename parts_dir i in
        let temp_wav_files := temp_wav_files ++ [part_filename] in
        if exists_ w part_filename then continue temp_wav_files w
        else
          let '(_, w) :=
            try_except
              (tts_to_file tts
                 (TtsCall sentence reference_audio language part_filename kwargs))
              (fun _ => ret ())
              w in
          continue temp_wav_files w
  end.

(** Lines 229-232: one line of the list file. *)
Definition manifest_line (wav_file : string) : string :=
  let safe_path := Path.replace_backslash (abspath wav_file) in
  "file '" +:+ safe_path +:+ "'" +:+ newline.

(** Lines 226-232: the file is opened for writing, then one line is
    written for each part that exists. *)
Definition write_list_file (list_file_path : string) (temp_wav_files : list string)
    (w : world) : world :=
  let w := write_file list_file_path "" w in
  let lines := map manifest_line (List.filter (exists_ w) temp_wav_files) in
  write_file list_file_path (foldr String.append "" lines) w.

Definition concat_command (list_file_path output_path : string) : list string :=
  ["ffmpeg"; "-f"; "concat"; "-safe"; "0"; "-i"; list_file_path; "-c"; "copy"; "-y";
   output_path].

(** Lines 166-169. *)
Definition ensure_parts_dir (parts_dir : string) (w : world) : world :=
  if negb (exists_ w parts_dir) then makedirs parts_dir w else w.

(** Lines 234-246: a failure of the join is reported and swallowed. *)
Definition concatenate (list_file_path output_path : string) : M string :=
  try_except
    (subprocess_run ffmpeg (concat_command list_file_path output_path))
    (fun _ => ret ());;;
  ret output_path.

(** Lines 149-246. *)
Definition process_long_text (tts : tts_model) (reference_audio : string) (text : str)
    (output_path language : string) (max_chunk_length : nat) (kwargs : gen_params)
    : M string :=
  fun w =>
    let parts_dir := parts_dir_of output_path in
    let w := ensure_parts_dir parts_dir w in
    let sentences := split_sentences max_chunk_length text in
    if length sentences <=? 1
    then clone_voice tts reference_audio text output_path language kwargs w
    else
      let '(temp_wav_files, w) :=
        synthesize_parts tts reference_audio language kwargs parts_dir 0 sentences [] w in
      let list_file_path := Path.join parts_dir "input_list.txt" in
      let w := write_list_file list_file_path temp_wav_files w in
      concatenate list_file_path output_path w.

(** Lines 166-169, where [os.makedirs] may be refused. *)
Definition ensure_parts_dir_strict (parts_dir : string) : M unit :=
  fun w =>
    if negb (exists_ w parts_dir) then makedirs_strict parts_dir w else (Returned (), w).

(** Lines 226-232, where [open] may be refused. *)
Definition write_list_file_strict (list_file_path : string) (temp_wav_files : list string)
    : M unit :=
  open_for_writing list_file_path;;;
  fun w =>
    let lines := map manifest_line (List.filter (exists_ w) temp_wav_files) in
    (Returned (), write_file list_file_path (foldr String.append "" lines) w).

(** Lines 149-246 in the strict reading of its two file-system calls:
    neither [os.makedirs] (line 169) nor [open] (line 227) is inside a
    [try], so a refusal of either leaves the function as an exception. *)
Definition process_long_text_strict (tts : tts_model) (reference_audio : string)
    (text : str) (output_path language : string) (max_chunk_length : nat)
    (kwargs : gen_params) : M string :=
  let parts_dir := parts_dir_of output_path in
  ensure_parts_dir_strict parts_dir;;;
  let sentences := split_sentences max_chunk_length text in
  if length sentences <=? 1
  then clone_voice tts reference_audio text output_path language kwargs
  else
    fun w =>
      let '(temp_wav_files, w) :=
        synthesize_parts tts reference_audio language kwargs parts_dir 0 sentences [] w in
      let list_file_path := Path.join parts_dir "input_list.txt" in
      (write_list_file_strict list_file_path temp_wav_files;;;
       concatenate list_file_path output_path) w.

(** Lines 372-376. *)
Definition synthesize (tts : tts_model) (ref_wav : string) (text : str)
    (output language : string) (gen_params : gen_params) : M string :=
  if 500 <? length text
  then process_long_text tts ref_wav text output language 250 gen_params
  else clone_voice tts ref_wav text output language gen_params.

(** Lines 330-331: [open(p, encoding='utf-8').read()]. *)
Definition read_text (p : string) : M str :=
  fun w =>
    match fs w !! p with
    | Some (File data) =>
        match utf8_decode data with
        | Some t => (Returned t, w)
        | None => (Raised UnicodeDecodeError, w)
        end
    | _ => (Raised FileError, w)
    end.

(** Lines 386-391. *)
Definition remove_temp (ref_wav : string) (is_temp : bool) (w : world) : world :=
  if is_temp && exists_ w ref_wav then remove ref_wav w else w.

(** Lines 362-391: the [try] / [except Exception] / [finally] block.
    [ref_wav] and [is_temp] keep their initial values when
    [auto_convert_to_wav] does not return. *)
Definition generate (args : namespace) (text : str) (gen_params : gen_params) : M unit :=
  fun w =>
    match auto_convert_to_wav (reference args) w with
    | (Returned (ref_wav, is_temp), w) =>
        let '(r, w) :=
          try_except
            (tts <-- load_model;;
             synthesize tts ref_wav text (output args) (arg_language args) gen_params;;;
             ret ())
            (fun _ => ret ())
            w in
        (r, remove_temp ref_wav is_temp w)
    | (Raised e, w) =>
        (if is_Exception e then Returned () else Raised e,
         remove_temp (reference args) false w)
    end.

(** Lines 325-333. *)
Definition get_text (args : namespace) : M str :=
  if given_path (text_file args)
  then
    let path := default "" (text_file args) in
    fun w =>
      if negb (exists_ w path) then raise (SystemExit 1) w
      else bind (read_text path) (fun t => ret (strip t)) w
  else ret (default [] (arg_text args)).

(** Lines 318-323. *)
Definition check_text_arguments (args : namespace) : M unit :=
  (if negb (given_text (arg_text args)) && negb (given_path (text_file args))
   then parser_error else ret ());;;
  if given_text (arg_text args) && given_path (text_file args)
  then parser_error else ret ().

(** Lines 339-341. *)
Definition check_reference (args : namespace) : M unit :=
  fun w =>
    if negb (validate_reference_audio (reference args) w)
    then raise (SystemExit 1) w else ret () w.

(** Lines 343-346. *)
Definition ensure_output_dir (args : namespace) : M unit :=
  fun w =>
    let output_dir := Path.dirname (output args) in
    if negb (String.eqb output_dir "") && negb (exists_ w output_dir)
    then (Returned (), makedirs output_dir w) else (Returned (), w).

(** Lines 393-396. *)
Definition exit_by_output (args : namespace) : M unit :=
  fun w =>
    if exists_ w (output args) then raise (SystemExit 0) w
    else raise (SystemExit 1) w.

(** Lines 249-396. *)
Definition main (argv : list argument) : M unit :=
  args <-- parse_args ambiguity_first argv;;
  check_text_arguments args;;;
  text <-- get_text args;;
  (if negb (truthy text) then raise (SystemExit 1) else ret ());;;
  check_reference args;;;
  ensure_output_dir args;;;
  let gen_params :=
    resolve_gen_params (arg_preset args) (arg_temperature args)
      (arg_repetition_penalty args) (arg_speed args) in
  generate args text gen_params;;;
  exit_by_output args.

(** The status the interpreter exits with: the code of [SystemExit],
    1 for any other uncaught exception, 0 when the script runs off
    its end. *)
Definition exit_status (r : outcome unit) : Z :=
  match r with
  | Raised (SystemExit code) => code
  | Raised _ => 1
  | Returned _ => 0
  end.

Definition run (argv : list argument) (w : world) : Z * world :=
  let '(r, w') := main argv w in (exit_status r, w').

End Environment.

End Pipeline.

(** ** The web backend (backend_hf/app.py, lines 21-38) *)

Module App.

Import Presets OS Pipeline.

Definition missing_input_message : string :=
  "Please provide both text and a reference audio file.".

Section Environment.

(** The model loaded at start-up, the name [tempfile] picks, the
    generation parameters the engine uses when none are passed, and
    [str(e)] of what the engine raised. *)
Variable tts : tts_model.
Variable mktemp : world -> string.
Variable engine_defaults : gen_params.
Variable str_of_exn : exn -> string.

(** [predict(text, audio_file, language)]: the pair of the output path and
    the error message. [text] and [audio_file] are [None] or a string, as
    the interface passes them. *)
Definition predict (text : option str) (audio_file : option string) (language : string)
    : M (option string * option string) :=
  if negb (given_text text) || negb (given_path audio_file)
  then ret (None, Some missing_input_message)
  else fun w =>
    let output_path := mktemp w in
    let w := write_file output_path "" w in
    try_except
      (tts_to_file tts
         (TtsCall (default [] text) (default "" audio_file) language output_path
            engine_defaults);;;
       ret (Some output_path, None))
      (fun e => ret (None, Some (str_of_exn e)))
      w.

End Environment.

End App.

(** ** Vocabulary of the properties *)

Module Properties.

Import Presets OS Segmenter Pipeline.

(** The segmenter's closing test on a buffer: its last character is a
    sentence terminator and it holds at least 20 characters. *)
Definition closes (buffer : str) : bool :=
  match List.last (map Some buffer) None with
  | Some c => is_terminator c && (20 <=? length buffer)
  | None => false
  end.

(** No non-empty prefix of the buffer would have been closed. *)
Definition still_open (buffer : str) : Prop :=
  forall k, 0 < k <= length buffer -> closes (take k buffer) = false.

(** A buffer closed at the first opportunity. *)
Definition closed_chunk (buffer : str) : Prop :=
  closes buffer = true /\
  forall k, 0 < k < length buffer -> closes (take k buffer) = false.

Definition blank (s : str) : Prop := forallb isspace s = true.

Definition nonspace (s : str) : str := List.filter (fun c => negb (isspace c)) s.

(** [covers segments text]: [text] is the segments in order, separated
    and surrounded by whitespace only. *)
Inductive covers : list str -> str -> Prop :=
| covers_nil gap : blank gap -> covers [] gap
| covers_cons gap s segments rest :
    blank gap -> covers segments rest -> covers (s :: segments) (gap ++ s ++ rest).

(** Every segment holds at least [min] characters, or is the final one. *)
Definition min_length_or_final (min : nat) (segments : list str) : Prop :=
  forall i s, segments !! i = Some s -> min <= length s \/ S i = length segments.

(** The number a string of decimal digits begins with, continuing from
    the value [v] read so far. *)
Fixpoint parse_dec (v : nat) (s : string) : nat :=
  match s with
  | String c s' =>
      match Ascii.is_nat c with
      | Some d => parse_dec (10 * v + d) s'
      | None => v
      end
  | EmptyString => v
  end.

(** What [os.path.join] puts in front of a relative second component. *)
Definition join_prefix (path : string) : string :=
  if String.eqb path "" || Path.endswith_sep path then path else path +:+ "/".

(** A computation's outcome is an exception. *)
Definition raises {A} (r : outcome A) : Prop := exists e, r = Raised e.

(** Every directory of [w'] was already a directory of [w]. *)
Definition no_directory_created (w w' : world) : Prop :=
  forall p, fs w' !! p = Some Dir -> fs w !! p = Some Dir.

(** [-h] is met before any argument that argparse refuses where it
    stands. *)
Fixpoint reaches_help (argv : list argument) : bool :=
  match argv with
  | [] => false
  | Help :: _ => true
  | a :: argv' => acceptable a && reaches_help argv'
  end.

(** The help is shown: [-h] is reached, and no ambiguous prefix was found
    beforehand where argparse looks for them first. *)
Definition help_shown (ambiguity_first : bool) (argv : list argument) : bool :=
  negb (ambiguity_first && existsb is_ambiguous argv) && reaches_help argv.

Definition is_unrecognized (a : argument) : bool :=
  match a with Unrecognized _ => true | _ => false end.

(** The option values of a command line: for each option the value of its
    last occurrence. *)
Definition options (argv : list argument) : cmdline := fold_left store argv no_options.

(** The command line is refused with a usage message when no help is
    shown: by argparse (a value outside its choices or not a float, an
    option without its value, an ambiguous prefix, an unknown argument,
    [--reference] missing) or by the two [parser.error] tests on [--text]
    and [--text_file]. *)
Definition usage_error (argv : list argument) : bool :=
  existsb (fun a => negb (acceptable a)) argv
  || existsb is_unrecognized argv
  || negb (bool_decide (is_Some (opt_reference (options argv))))
  || negb (given_text (opt_text (options argv)))
     && negb (given_path (opt_text_file (options argv)))
  || given_text (opt_text (options argv)) && given_path (opt_text_file (options argv)).

(** The text to synthesize, when it can be obtained: the trimmed content
    of the text file if one is named, the literal text otherwise. *)
Definition input_text (utf8_decode : string -> option str) (c : cmdline) (w : world)
    : option str :=
  if given_path (opt_text_file c)
  then
    match fs w !! default "" (opt_text_file c) with
    | Some (File data) => strip <$> utf8_decode data
    | _ => None
    end
  else opt_text c.

(** The inputs are refused before any synthesis: the text file is missing
    or unreadable, the text is empty, or the reference audio is missing or
    has an unsupported extension. *)
Definition input_error (utf8_decode : string -> option str) (c : cmdline) (w : world)
    : bool :=
  match input_text utf8_decode c w with
  | Some t => negb (truthy t)
  | None => true
  end
  || negb (validate_reference_audio (default "" (opt_reference c)) w).

(** The exit code as the specification states it: 0 exactly when the
    output file exists after the run, 1 otherwise. *)
Definition exit_code_by_output (code : Z) (w' : world) (output : string) : Prop :=
  code = (if exists_ w' output then 0 else 1)%Z.

(** The FFmpeg command of [auto_convert_to_wav] (line 71). *)
Definition convert_command (audio_path temp_wav_path : string) : list string :=
  ["ffmpeg"; "-i"; audio_path; "-y"; "-acodec"; "pcm_s16le"; "-ar"; "22050"; "-ac"; "1";
   temp_wav_path].

(** The target files of the engine calls among [evs], in order. *)
Definition synth_paths (evs : list event) : list string :=
  omap (fun e => match e with
                 | Synthesis c _ => Some (file_path c)
                 | Subprocess _ _ => None
                 end) evs.

Definition is_synthesis (e : event) : Prop := exists c ok, e = Synthesis c ok.

(** The segments of a text that the scan never closes: the whole text,
    trimmed, when anything is left of it. *)
Definition whole_text (text : str) : list str :=
  if truthy (strip text) then [strip text] else [].

(** The events appended to the trace between two worlds. *)
Definition new_events (w w' : world) : list event :=
  drop (length (trace w)) (trace w').

(** The engine calls among [evs] that target the file [p], with their
    success flags. *)
Definition synth_to (p : string) (e : event) : bool :=
  match e with
  | Synthesis c _ => String.eqb (file_path c) p
  | Subprocess _ _ => false
  end.

Definition calls_to (p : string) (evs : list event) : list event :=
  List.filter (synth_to p) evs.

Section Environment.

Variable abspath : string -> string.

(** The long-text path up to the end of the parts loop: the staging
    directory ensured, then lines 195-220 over the segments. The result is
    [temp_wav_files] and the world after the loop. *)
Definition after_loop (tts : tts_model) (reference_audio : string) (text : str)
    (output_path language : string) (max_chunk_length : nat) (kwargs : gen_params)
    (w : world) : list string * world :=
  let parts_dir := parts_dir_of abspath output_path in
  synthesize_parts tts reference_audio language kwargs parts_dir 0
    (split_sentences max_chunk_length text) [] (ensure_parts_dir parts_dir w).

Definition list_file_of (output_path : string) : string :=
  Path.join (parts_dir_of abspath output_path) "input_list.txt".

(** The world in which the join is started: the list file written. *)
Definition join_world (tts : tts_model) (reference_audio : string) (text : str)
    (output_path language : string) (max_chunk_length : nat) (kwargs : gen_params)
    (w : world) : world :=
  let '(temp_wav_files, w2) :=
    after_loop tts reference_audio text output_path language max_chunk_length kwargs w in
  write_list_file abspath (list_file_of output_path) temp_wav_files w2.

(** The steps of [main] once the inputs are accepted (lines 343-396): the
    output directory, the guarded synthesis, the exit on the output file. *)
Definition synthesis_phase (ffmpeg : process_runner) (mktemp : world -> string)
    (TTS : world -> option tts_model) (args : namespace) (text : str) : M unit :=
  ensure_output_dir args;;;
  generate abspath ffmpeg mktemp TTS args text
    (resolve_gen_params (arg_preset args) (arg_temperature args)
       (arg_repetition_penalty args) (arg_speed args));;;
  exit_by_output args.

(** The list file's content for the given paths, in their order. *)
Definition manifest (paths : list string) : string :=
  foldr String.append "" (map (manifest_line abspath) paths).

(** The staging directory can be used: its name is not taken by a regular
    file, and the name of the list file is not taken by a directory. *)
Definition staging_usable (output_path : string) (w : world) : Prop :=
  is_file w (parts_dir_of abspath output_path) = false /\
  is_dir w (list_file_of output_path) = false.

(** [os.makedirs] refuses to create the staging directory. *)
Definition staging_refused (output_path : string) (w : world) : bool :=
  let parts_dir := parts_dir_of abspath output_path in
  negb (exists_ w parts_dir) && makedirs_refused (String.length parts_dir) w parts_dir.

(** The name is the absolute, normalised name of its file, so that two
    such names are equal exactly when they name the same file. *)
Definition canonical (p : string) : Prop := abspath p = p.

End Environment.

End Properties.

(** ** Sample inputs *)

Module Samples.

Import Presets OS.

(** A 20-character sentence. *)
Definition sentence20 : str := py "Aaaaaaaaaaaaaaaaaaa.".

(** 600 characters: thirty sentences of 20 characters. *)
Definition thirty_sentences : str := concat (replicate 30 sentence20).

(** 500 characters: twenty-five sentences of 20 characters. *)
Definition twenty_five_sentences : str := concat (replicate 25 sentence20).

(** 501 characters without any terminator. *)
Definition no_terminator : str := replicate 501 97%N.

(** A working directory of [/w]. *)
Definition abspath (p : string) : string :=
  if Path.startswith_sep p then p else "/w/" +:+ p.

Definition empty_world : world := World ∅ [].

(** Engines: one that always succeeds, one that always raises, one that
    raises for the second part only. *)
Definition tts_ok : tts_model := fun _ _ => Some "RIFF".
Definition tts_down : tts_model := fun _ _ => None.
Definition tts_fails_on_2 : tts_model :=
  fun _ c =>
    if String.eqb (file_path c) "/w/voice_parts/part_0002.wav" then None else Some "RIFF".

(** FFmpeg present and working, and FFmpeg missing or failing. *)
Definition ffmpeg_ok : process_runner := fun _ _ => Some "JOINED".
Definition ffmpeg_fails : process_runner := fun _ _ => None.

Definition neutral_params : gen_params := GENERATION_PRESETS neutral.

Definition utf8_ascii (data : string) : option str := Some (py data).
Definition mktemp (w : world) : string := "/tmp/tmpabc.wav".
Definition TTS_ok (w : world) : option tts_model := Some tts_ok.

Import Pipeline.

Definition TTS_down (w : world) : option tts_model := None.

(** A model that loads but whose every call raises. *)
Definition TTS_broken (w : world) : option tts_model := Some tts_down.

(** The parsed arguments of [--reference ref.mp3 --text Hello] and of
    [--reference ref.wav --text Hello], with the defaults. *)
Definition args_mp3 : namespace :=
  Namespace "ref.mp3" (Some (py "Hello")) None "output.wav" "en" None None None None.
Definition args_wav : namespace :=
  Namespace "ref.wav" (Some (py "Hello")) None "output.wav" "en" None None None None.

(** [--text Hello] without the required [--reference]. *)
Definition cmd_no_reference : list argument := [Text (py "Hello")].

(** [--reference ref.wav --text_file missing.txt], run where an earlier
    [output.wav] is still on disk. *)
Definition cmd_missing_text_file : list argument :=
  [Reference "ref.wav"; TextFile "missing.txt"].

(** [--reference ref.xyz --text Hello]: an unsupported extension. *)
Definition cmd_bad_extension : list argument := [Reference "ref.xyz"; Text (py "Hello")].

(** [--reference ref.wav --text Hello] *)
Definition cmd_hello : list argument := [Reference "ref.wav"; Text (py "Hello")].

(** The argparse of Python 3.11. *)
Definition ambiguity_first : bool := true.

(** [--help] alone, and [--bogus --language xx -h]. *)
Definition cmd_help : list argument := [Help].
Definition cmd_refused_before_help : list argument :=
  [Unrecognized "--bogus"; Language "xx"; Help].

Definition world_with_old_output : world :=
  World (<["output.wav" := File "OLD"]>
         (<["ref.wav" := File "RIFF"]> (<["ref.xyz" := File "RIFF"]> ∅))) [].

Definition world_with_reference : world :=
  World (<["ref.wav" := File "RIFF"]> ∅) [].

(** A staging directory left by an interrupted run: part 1 complete, part
    2 created but empty. *)
Definition interrupted_world : world :=
  World (<["/w/voice_parts" := Dir]>
         (<["/w/voice_parts/part_0001.wav" := File "RIFF"]>
          (<["/w/voice_parts/part_0002.wav" := File ""]> ∅))) [].

(** The name of the staging directory of [/w/out.wav] taken by a regular
    file, and the directory [/w] itself being a regular file. *)
Definition world_with_staging_file : world :=
  World (<["/w/voice_parts" := File ""]> ∅) [].
Definition world_with_file_above : world :=
  World (<["/w" := File ""]> ∅) [].

(** The reference audio under its canonical name. *)
Definition world_with_canonical_reference : world :=
  World (<["/w/ref.wav" := File "RIFF"]> ∅) [].

End Samples.

Example split_hi : Segmenter.split_sentences 250 (py "Hi.") = [py "Hi."].
Proof. reflexivity. Qed.

Example split_two :
  Segmenter.split_sentences 250 (py "The quick brown fox. It jumps over the dog! ok") =
  [py "The quick brown fox."; py "It jumps over the dog!"; py "ok"].
Proof. reflexivity. Qed.

Example path_examples :
  Path.join "/a/b" "voice_parts" = "/a/b/voice_parts" /\
  Path.join "" "x" = "x" /\ Path.join "/a/" "x" = "/a/x" /\ Path.join "/a" "/x" = "/x" /\
  Path.dirname "/a/b/out.wav" = "/a/b" /\ Path.dirname "out.wav" = "" /\
  Path.dirname "/out.wav" = "/" /\ Path.dirname "a//b" = "a" /\
  Path.suffix "/a/b.c/ref.MP3" = ".MP3" /\ Path.suffix ".wav" = "" /\
  Path.suffix "a." = "" /\ Path.suffix "a.tar.gz" = ".gz" /\ Path.suffix "dir/a.wav/" = ".wav" /\
  Path.lower "Ab.WaV" = "ab.wav" /\ Path.endswith "x.wav" ".wav" = true /\
  Path.endswith "wav" ".wav" = false /\
  Path.format_04d 7 = "0007" /\ Path.format_04d 123 = "0123" /\
  Path.format_04d (12 * 1000 + 345) = "12345" /\ Path.format_04d 1000 = "1000".
Proof. repeat split; reflexivity. Qed.

(** * Properties *)

Import Presets OS Segmenter Pipeline Properties.

(** ** Whitespace trimming *)

Section StripFacts.

Lemma lstrip_split (s : str) : exists l, s = l ++ lstrip s /\ blank l.
Proof.
  induction s as [|c s [l [Heq Hl]]]; simpl.
  - exists []. done.
  - destruct (isspace c) eqn:Hc.
    + exists (c :: l). split; [simpl; congruence|].
      unfold blank in *. simpl. by rewrite Hc.
    + exists []. done.
Qed.

Lemma lstrip_head (s : str) :
  lstrip s = [] \/ exists c t, lstrip s = c :: t /\ isspace c = false.
Proof.
  induction s as [|c s IH]; simpl; [by left|].
  destruct (isspace c) eqn:Hc; [done|]. right. eauto.
Qed.

Lemma lstrip_fixed (c : N) (t : str) : isspace c = false -> lstrip (c :: t) = c :: t.
Proof. intros Hc. simpl. by rewrite Hc. Qed.

Lemma blank_app (a b : str) : blank a -> blank b -> blank (a ++ b).
Proof. unfold blank. rewrite forallb_app. intros -> ->. done. Qed.

Lemma blank_rev (a : str) : blank a -> blank (rev a).
Proof.
  unfold blank. rewrite !forallb_forall. intros H x Hx. apply H.
  by apply in_rev.
Qed.

Lemma rstrip_split (s : str) : exists r, s = rstrip s ++ r /\ blank r.
Proof.
  unfold rstrip. destruct (lstrip_split (rev s)) as [l [Heq Hl]].
  exists (rev l). split; [|by apply blank_rev].
  rewrite <- rev_app_distr, <- Heq. by rewrite rev_involutive.
Qed.

Lemma rstrip_last (s : str) :
  rstrip s = [] \/ exists t c, rstrip s = t ++ [c] /\ isspace c = false.
Proof.
  unfold rstrip. destruct (lstrip_head (rev s)) as [->|[c [t [-> Hc]]]]; [by left|].
  right. exists (rev t), c. done.
Qed.

Lemma rstrip_fixed (t : str) (c : N) : isspace c = false -> rstrip (t ++ [c]) = t ++ [c].
Proof.
  intros Hc. unfold rstrip. rewrite rev_app_distr. simpl. rewrite Hc.
  simpl. by rewrite rev_involutive.
Qed.

Lemma rstrip_keeps_head (c : N) (t : str) :
  isspace c = false -> exists t', rstrip (c :: t) = c :: t'.
Proof.
  intros Hc. destruct (rstrip_split (c :: t)) as [r [Heq Hr]].
  destruct (rstrip (c :: t)) as [|c' t'] eqn:E.
  - simpl in Heq. subst r. unfold blank in Hr. simpl in Hr. by rewrite Hc in Hr.
  - simpl in Heq. injection Heq as -> _. eauto.
Qed.

(** [strip] splits its argument into whitespace, the result, whitespace. *)
Lemma strip_split (s : str) :
  exists l r, s = l ++ strip s ++ r /\ blank l /\ blank r.
Proof.
  destruct (lstrip_split s) as [l [Hl Bl]].
  destruct (rstrip_split (lstrip s)) as [r [Hr Br]].
  exists l, r. unfold strip. by rewrite <- Hr.
Qed.

(** The result of [strip] is empty or begins and ends with a character
    that is not whitespace. *)
Lemma strip_ends (s : str) :
  strip s = [] \/
  (exists c t, strip s = c :: t /\ isspace c = false) /\
  (exists t c, strip s = t ++ [c] /\ isspace c = false).
Proof.
  unfold strip. destruct (lstrip_head s) as [->|[c [t [-> Hc]]]]; [by left|].
  destruct (rstrip_keeps_head c t Hc) as [t' Ht']. right. split; [eauto|].
  destruct (rstrip_last (c :: t)) as [E|H]; [congruence|done].
Qed.

Lemma strip_idemp (s : str) : strip (strip s) = strip s.
Proof.
  destruct (strip_ends s) as [->|[[c [t [E Hc]]] [t' [c' [E' Hc']]]]]; [done|].
  unfold strip at 1. rewrite E, (lstrip_fixed _ _ Hc), <- E, E'.
  by apply rstrip_fixed.
Qed.

Lemma terminator_not_space (c : N) : is_terminator c = true -> isspace c = false.
Proof.
  unfold is_terminator. intros H.
  apply orb_true_iff in H as [H|H]; [apply orb_true_iff in H as [H|H]|];
    apply N.eqb_eq in H; subst c; reflexivity.
Qed.

(** Trimming a buffer that ends in a terminator only removes leading
    whitespace, and leaves at least the terminator. *)
Lemma strip_closed (b : str) (c : N) :
  is_terminator c = true ->
  strip (b ++ [c]) = lstrip (b ++ [c]) /\ exists t, strip (b ++ [c]) = t ++ [c].
Proof.
  intros Hc. apply terminator_not_space in Hc.
  destruct (lstrip_split (b ++ [c])) as [l [Heq Hl]].
  destruct (lstrip (b ++ [c])) as [|x t] eqn:E using rev_ind.
  - rewrite app_nil_r in Heq. subst l. unfold blank in Hl.
    rewrite forallb_app in Hl. simpl in Hl. rewrite Hc in Hl.
    by rewrite andb_false_r in Hl.
  - clear IHt. rewrite app_assoc in Heq. apply app_inj_tail in Heq as [_ <-].
    unfold strip. rewrite E, (rstrip_fixed _ _ Hc). eauto.
Qed.

End StripFacts.

(** ** The sentence splitter *)

Section SegmenterFacts.

Lemma closes_snoc (b : str) (c : N) :
  closes (b ++ [c]) = is_terminator c && (20 <=? length (b ++ [c])).
Proof. unfold closes. rewrite map_app. simpl. by rewrite last_last. Qed.

Lemma still_open_nil : still_open [].
Proof. intros k [H1 H2]. simpl in H2. lia. Qed.

Lemma take_snoc_lt (b : str) (c : N) (k : nat) :
  k <= length b -> take k (b ++ [c]) = take k b.
Proof. intros H. by rewrite take_app_le. Qed.

Lemma scan_cons (char : N) (text : str) (sentences : list str) (chunk : str) :
  scan (char :: text) sentences chunk =
  if closes (chunk ++ [char])
  then scan text (sentences ++ [strip (chunk ++ [char])]) []
  else scan text sentences (chunk ++ [char]).
Proof. by rewrite closes_snoc. Qed.

(** The scan loop: from an open buffer it cuts the remaining input into
    chunks closed at the first opportunity, appends their trimmed forms
    to [sentences], and is left with an open buffer. *)
Lemma scan_chunks (text : str) :
  forall sentences current_chunk,
    still_open current_chunk ->
    exists chunks rest,
      current_chunk ++ text = concat chunks ++ rest /\
      Forall closed_chunk chunks /\ still_open rest /\
      scan text sentences current_chunk = (sentences ++ map strip chunks, rest).
Proof.
  induction text as [|char text IH]; intros sentences chunk Hopen.
  - exists [], chunk. simpl. rewrite !app_nil_r. done.
  - rewrite scan_cons.
    destruct (closes (chunk ++ [char])) eqn:Hc.
    + destruct (IH (sentences ++ [strip (chunk ++ [char])]) [] still_open_nil)
        as (chunks & rest & Heq & Hall & Hrest & Hscan).
      exists ((chunk ++ [char]) :: chunks), rest. repeat split; try done.
      * simpl. rewrite <- !app_assoc. simpl in *. by rewrite Heq.
      * constructor; [|done]. split; [done|].
        intros k Hk. rewrite length_app in Hk. simpl in Hk.
        rewrite take_snoc_lt by lia. apply Hopen. lia.
      * rewrite Hscan. simpl. by rewrite <- app_assoc.
    + destruct (IH sentences (chunk ++ [char])) as (chunks & rest & Heq & Hall & Hrest & Hscan).
      * intros k Hk. rewrite length_app in Hk. simpl in Hk.
        destruct (decide (k = length chunk + 1)) as [->|Hne].
        -- rewrite firstn_all2 by (rewrite length_app; simpl; lia). done.
        -- rewrite take_snoc_lt by lia. apply Hopen. lia.
      * exists chunks, rest. rewrite <- app_assoc in Heq. done.
Qed.

Lemma split_sentences_chunks (max_chunk_length : nat) (text : str) :
  exists chunks rest,
    text = concat chunks ++ rest /\
    Forall closed_chunk chunks /\ still_open rest /\
    split_sentences max_chunk_length text =
      map strip chunks ++ (if truthy (strip rest) then [strip rest] else []).
Proof.
  destruct (scan_chunks text [] [] still_open_nil) as (chunks & rest & Heq & Hall & Hrest & Hscan).
  exists chunks, rest. repeat split; try done.
  unfold split_sentences. rewrite Hscan. simpl.
  destruct (truthy (strip rest)); [done|by rewrite app_nil_r].
Qed.

(** What closing means for the buffer and for its trimmed form. *)
Lemma closes_inv (b : str) :
  closes b = true ->
  20 <= length b /\
  exists b' c, b = b' ++ [c] /\ is_terminator c = true /\
    strip b = lstrip b /\ exists t, strip b = t ++ [c].
Proof.
  destruct b as [|x b] using rev_ind; [done|]. clear IHb.
  rewrite closes_snoc. intros H. apply andb_true_iff in H as [Hc Hlen].
  apply Nat.leb_le in Hlen. split; [done|].
  exists b, x. destruct (strip_closed b x Hc) as [? ?]. done.
Qed.

Lemma truthy_true (s : str) : truthy s = true <-> s <> [].
Proof. destruct s; simpl; split; done. Qed.

Lemma closed_chunk_strip_nonempty (b : str) : closed_chunk b -> strip b <> [].
Proof.
  intros [Hc _]. destruct (closes_inv b Hc) as (_ & b' & c & _ & _ & _ & t & ->).
  by destruct t.
Qed.

End SegmenterFacts.

Section CoverFacts.

Lemma covers_blank_prefix (segments : list str) (t gap : str) :
  covers segments t -> blank gap -> covers segments (gap ++ t).
Proof.
  intros Hc Hgap. destruct Hc as [gap' Hg|gap' s segments rest Hg Hc].
  - constructor. by apply blank_app.
  - rewrite app_assoc. constructor; [by apply blank_app|done].
Qed.

Lemma covers_rest (rest : str) :
  covers (if truthy (strip rest) then [strip rest] else []) rest.
Proof.
  destruct (strip_split rest) as (l & r & Heq & Hl & Hr).
  destruct (truthy (strip rest)) eqn:E.
  - rewrite Heq at 2. constructor; [done|]. by constructor.
  - constructor. destruct (strip rest); [|done].
    rewrite Heq. simpl. by apply blank_app.
Qed.

Lemma covers_chunks (chunks : list str) (rest : str) :
  covers (map strip chunks ++ (if truthy (strip rest) then [strip rest] else []))
         (concat chunks ++ rest).
Proof.
  induction chunks as [|b chunks IH]; simpl; [apply covers_rest|].
  destruct (strip_split b) as (l & r & Heq & Hl & Hr).
  rewrite Heq at 2. rewrite <- !app_assoc. constructor; [done|].
  by apply covers_blank_prefix.
Qed.

Lemma nonspace_blank (gap : str) : blank gap -> nonspace gap = [].
Proof.
  unfold blank, nonspace. induction gap as [|c gap IH]; simpl; [done|].
  intros H. apply andb_true_iff in H as [-> H]. simpl. auto.
Qed.

Lemma nonspace_app (a b : str) : nonspace (a ++ b) = nonspace a ++ nonspace b.
Proof. apply List.filter_app. Qed.

Lemma covers_nonspace (segments : list str) (t : str) :
  covers segments t -> nonspace (concat segments) = nonspace t.
Proof.
  induction 1 as [gap Hg|gap s segments rest Hg Hc IH]; simpl.
  - by rewrite nonspace_blank.
  - rewrite !nonspace_app, IH. by rewrite (nonspace_blank gap).
Qed.

Lemma split_sentences_trimmed (max_chunk_length : nat) (text : str) :
  Forall (fun s => s <> [] /\ strip s = s) (split_sentences max_chunk_length text).
Proof.
  destruct (split_sentences_chunks max_chunk_length text) as (chunks & rest & _ & Hall & _ & ->).
  apply Forall_app. split.
  - apply Forall_map. eapply Forall_impl; [exact Hall|].
    intros b Hb. simpl. split; [by apply closed_chunk_strip_nonempty|apply strip_idemp].
  - destruct (truthy (strip rest)) eqn:E; [|constructor].
    constructor; [|constructor]. split; [by apply truthy_true|apply strip_idemp].
Qed.

End CoverFacts.

(** C1 (amended). The splitter closes a segment exactly when the character
    just accumulated is one of [.], [!], [?] and the buffer holds at least 20
    characters, the literal of line 181, whatever [max_chunk_length] is: the
    input is cut into buffers each closed at the first prefix that passes this
    test, followed by a remainder no prefix of which passes it. Consequently
    every segment is the trimmed form of a buffer of at least 20 characters
    ending in a terminator (only leading whitespace is removed, so the segment
    still ends in that terminator), or it is the final segment. *)
Theorem segmenter_closes_at_twenty (max_chunk_length : nat) (text : str) :
  exists chunks rest,
    text = concat chunks ++ rest /\
    Forall closed_chunk chunks /\ still_open rest /\
    split_sentences max_chunk_length text =
      map strip chunks ++ (if truthy (strip rest) then [strip rest] else []) /\
    forall i s, split_sentences max_chunk_length text !! i = Some s ->
      (exists b, chunks !! i = Some b /\ closes b = true /\ 20 <= length b /\
         s = lstrip b /\ exists t c, s = t ++ [c] /\ is_terminator c = true) \/
      S i = length (split_sentences max_chunk_length text).
Proof.
  destruct (split_sentences_chunks max_chunk_length text)
    as (chunks & rest & Heq & Hall & Hrest & Hsplit).
  exists chunks, rest. repeat split; try done.
  rewrite Hsplit. intros i s Hi.
  destruct (decide (i < length chunks)) as [Hlt|Hge].
  - left. rewrite lookup_app_l in Hi by (by rewrite length_map).
    rewrite list_lookup_fmap in Hi.
    destruct (lookup_lt_is_Some_2 chunks i Hlt) as [b Hb].
    rewrite Hb in Hi. simpl in Hi. injection Hi as <-.
    exists b. split; [done|].
    assert (closed_chunk b) as [Hc _] by (eapply Forall_lookup_1; eauto).
    destruct (closes_inv b Hc) as (Hlen & b' & c & E & Hterm & Hstrip & t & Ht).
    rewrite <- Hstrip. repeat split; try done. exists t, c. by subst b.
  - right. rewrite lookup_app_r in Hi by (rewrite length_map; lia).
    rewrite length_map in Hi. rewrite length_app, length_map.
    destruct (truthy (strip rest)); [|by rewrite lookup_nil in Hi].
    apply lookup_lt_Some in Hi as Hlt. simpl in *. lia.
Qed.

(** C1, as stated, fails: with the default [max_chunk_length] of 250, a text
    of thirty 20-character sentences is cut into thirty segments of 20
    characters, none of which reaches 250. *)
Lemma segments_shorter_than_250 :
  ~ min_length_or_final 250 (split_sentences 250 Samples.thirty_sentences).
Proof.
  intros H.
  assert (split_sentences 250 Samples.thirty_sentences !! 0 = Some Samples.sentence20) as H0
    by (vm_compute; reflexivity).
  destruct (H 0 _ H0) as [Hlen|Hlast].
  - vm_compute in Hlen. lia.
  - vm_compute in Hlast. discriminate Hlast.
Qed.

(** After trimming, a segment closed at 20 buffered characters can hold a
    single character. *)
Example trimmed_segment_short :
  split_sentences 250 (py "                   . x") = [py "."; py "x"].
Proof. reflexivity. Qed.

(** C6. Preset resolution starts from the neutral preset, a named preset
    replaces that base, and each supplied override then replaces its own
    field: the assignments of [main] compute the specification's resolution
    order; ["expressive"] with [speed=1.5] gives [(0.85, 5.0, 1.5)], and no
    preset with no overrides gives the neutral triple [(0.75, 10.0, 1.0)]. *)
Theorem preset_resolution_order :
  (forall p t r s, resolve_gen_params p t r s = resolve_spec p t r s) /\
  (forall t r s, resolve_gen_params None t r s
                 = resolve_gen_params (Some neutral) t r s) /\
  resolve_gen_params (Some expressive) None None (Some 1.5%float)
    = GenParams 0.85 5.0 1.5 /\
  resolve_gen_params None None None None = GenParams 0.75 10.0 1.0.
Proof.
  repeat split.
  intros [[]|] [t|] [r|] [s|]; reflexivity.
Qed.

(** ** Paths of the staging directory *)

Section PathFacts.

Lemma app_cons (c : ascii) (a b : string) : String c a +:+ b = String c (a +:+ b).
Proof. reflexivity. Qed.

Lemma app_assoc_s (a b c : string) : (a +:+ b) +:+ c = a +:+ b +:+ c.
Proof. induction a as [|x a IH]; [done|]. rewrite !app_cons. by rewrite IH. Qed.

Lemma app_length_s (a b : string) :
  String.length (a +:+ b) = String.length a + String.length b.
Proof. induction a as [|x a IH]; [done|]. rewrite app_cons. simpl. by rewrite IH. Qed.

Lemma join_relative (path b : string) :
  Path.startswith_sep b = false -> Path.join path b = join_prefix path +:+ b.
Proof.
  intros Hb. unfold Path.join, join_prefix. rewrite Hb.
  destruct (String.eqb path "" || Path.endswith_sep path); [done|].
  by rewrite app_assoc_s.
Qed.

Lemma digit_is_nat (d : nat) : d < 10 -> Ascii.is_nat (ascii_of_nat (48 + d)) = Some d.
Proof. intros H. do 10 (destruct d as [|d]; [reflexivity|]). lia. Qed.

Lemma dec_go_app (fuel n : nat) (acc s : string) :
  Path.dec_go fuel n acc +:+ s = Path.dec_go fuel n (acc +:+ s).
Proof.
  revert n acc. induction fuel as [|fuel IH]; intros n acc; [done|].
  cbn [Path.dec_go]. destruct (n / 10 =? 0); [done|]. by rewrite IH.
Qed.

Lemma dec_go_parse (fuel n : nat) (acc : string) :
  n < fuel -> parse_dec 0 (Path.dec_go fuel n acc) = parse_dec n acc.
Proof.
  revert n acc. induction fuel as [|fuel IH]; intros n acc Hn; [lia|].
  cbn [Path.dec_go].
  assert (n mod 10 < 10) as Hd by (apply Nat.mod_upper_bound; lia).
  pose proof (Nat.div_mod_eq n 10) as Hdm.
  destruct (n / 10 =? 0) eqn:E.
  - apply Nat.eqb_eq in E. cbn [parse_dec]. rewrite (digit_is_nat _ Hd).
    f_equal. lia.
  - apply Nat.eqb_neq in E. rewrite IH by lia.
    cbn [parse_dec]. rewrite (digit_is_nat _ Hd). f_equal. lia.
Qed.

Lemma zeros_parse (k : nat) (s : string) : parse_dec 0 (Path.zeros k +:+ s) = parse_dec 0 s.
Proof. induction k as [|k IH]; [done|]. simpl. exact IH. Qed.

(** The number of a part can be read back from its file name. *)
Lemma format_04d_parse (n : nat) : parse_dec 0 (Path.format_04d n +:+ ".wav") = n.
Proof.
  unfold Path.format_04d, Path.format_d. rewrite app_assoc_s, zeros_parse, dec_go_app.
  rewrite dec_go_parse by lia. reflexivity.
Qed.

Lemma part_filename_eq (parts_dir : string) (i : nat) :
  part_filename parts_dir i
  = join_prefix parts_dir +:+ "part_" +:+ Path.format_04d (i + 1) +:+ ".wav".
Proof. unfold part_filename. by rewrite join_relative. Qed.

Lemma part_filename_inj (parts_dir : string) (i j : nat) :
  part_filename parts_dir i = part_filename parts_dir j -> i = j.
Proof.
  rewrite !part_filename_eq. intros H.
  apply (inj (String.app _)) in H. apply (inj (String.app "part_")) in H.
  apply (f_equal (parse_dec 0)) in H. rewrite !format_04d_parse in H. lia.
Qed.

Lemma part_filename_not_list_file (parts_dir : string) (i : nat) :
  part_filename parts_dir i <> Path.join parts_dir "input_list.txt".
Proof.
  rewrite part_filename_eq, join_relative by done. intros H.
  apply (inj (String.app _)) in H. discriminate H.
Qed.

Lemma part_filename_not_parts_dir (parts_dir : string) (i : nat) :
  part_filename parts_dir i <> parts_dir.
Proof.
  intros H. apply (f_equal String.length) in H. revert H.
  unfold part_filename, Path.join. cbn [Path.startswith_sep]. simpl.
  destruct (String.eqb parts_dir "" || Path.endswith_sep parts_dir);
    rewrite !app_length_s; simpl; lia.
Qed.

End PathFacts.

(** ** The parts loop *)

Section LoopFacts.

Variable tts : tts_model.
Variables reference_audio language : string.
Variable kwargs : gen_params.
Variable parts_dir : string.

Local Abbreviation P := (part_filename parts_dir).
Local Abbreviation call s i := (TtsCall s reference_audio language (P i) kwargs).

Lemma new_events_app (w w' : world) (evs : list event) :
  trace w' = trace w ++ evs -> new_events w w' = evs.
Proof. intros H. unfold new_events. rewrite H. by rewrite drop_app_length. Qed.

(** One guarded engine call of the loop body: the world moves on, nothing
    is raised. *)
Lemma guarded_call (c : tts_call) (w : world) :
  try_except (tts_to_file tts c) (fun _ => ret ()) w =
  (Returned (),
   match tts w c with
   | Some audio => log (Synthesis c true) (write_file (file_path c) audio w)
   | None => log (Synthesis c false) w
   end).
Proof. unfold try_except, tts_to_file. by destruct (tts w c). Qed.

Lemma calls_to_cons_other (p : string) (c : tts_call) (ok : bool) (evs : list event) :
  file_path c <> p -> calls_to p (Synthesis c ok :: evs) = calls_to p evs.
Proof.
  intros Hne. unfold calls_to. simpl.
  by destruct (String.eqb_spec (file_path c) p).
Qed.

Lemma calls_to_cons_same (c : tts_call) (ok : bool) (evs : list event) :
  calls_to (file_path c) (Synthesis c ok :: evs) = Synthesis c ok :: calls_to (file_path c) evs.
Proof. unfold calls_to. simpl. by rewrite String.eqb_refl. Qed.

(** The loop from index [i]: which paths it lists, which files it leaves
    alone, and how often it calls the engine for each part. *)
Lemma synthesize_parts_spec (sentences : list str) :
  forall (i : nat) (temp_wav_files : list string) (w : world),
    Forall (fun s => truthy (strip s) = true) sentences ->
    exists evs,
      let '(temp_wav_files', w') :=
        synthesize_parts tts reference_audio language kwargs parts_dir i sentences
          temp_wav_files w in
      temp_wav_files' = temp_wav_files ++ map P (seq i (length sentences)) /\
      trace w' = trace w ++ evs /\
      (forall p,
         is_Some (fs w !! p) \/ (forall j, i <= j < i + length sentences -> p <> P j) ->
         fs w' !! p = fs w !! p /\ calls_to p evs = []) /\
      (forall j s,
         sentences !! j = Some s -> fs w !! P (i + j) = None ->
         exists ok,
           calls_to (P (i + j)) evs = [Synthesis (call s (i + j)) ok] /\
           if ok then exists audio, fs w' !! P (i + j) = Some (File audio)
           else fs w' !! P (i + j) = None).
Proof.
  induction sentences as [|s rest IH]; intros i T w Hall.
  - exists []. simpl. rewrite !app_nil_r. repeat split; try done.
  - apply Forall_cons in Hall as [Hs Hall].
    cbn [synthesize_parts]. rewrite Hs. cbn [negb].
    destruct (exists_ w (P i)) eqn:Hex.
    + destruct (IH (S i) (T ++ [P i]) w Hall) as [evs Hspec]. exists evs.
      destruct (synthesize_parts _ _ _ _ _ (S i) rest _ w) as [T' w'].
      destruct Hspec as (HT & Htr & Hkeep & Hcall).
      split; [by rewrite HT, <- app_assoc|]. split; [done|]. split.
      * intros p Hp. apply Hkeep. destruct Hp as [Hp|Hp]; [by left|].
        right. intros j Hj. apply Hp. simpl. lia.
      * intros [|j] s' Hj Hnone.
        -- rewrite Nat.add_0_r in Hnone. unfold exists_ in Hex. by rewrite Hnone in Hex.
        -- replace (i + S j) with (S i + j) in * by lia. by apply Hcall.
    + unfold exists_ in Hex. destruct (fs w !! P i) eqn:Hnone; [done|]. clear Hex.
      rewrite guarded_call. cbn [file_path].
      set (w1 := match tts w (call s i) with
                 | Some audio => log (Synthesis (call s i) true) (write_file (P i) audio w)
                 | None => log (Synthesis (call s i) false) w
                 end).
      destruct (IH (S i) (T ++ [P i]) w1 Hall) as [evs Hspec].
      assert (exists ok, trace w1 = trace w ++ [Synthesis (call s i) ok] /\
                (forall p, p <> P i -> fs w1 !! p = fs w !! p) /\
                if ok then exists audio, fs w1 !! P i = Some (File audio)
                else fs w1 !! P i = None) as (ok & Htr1 & Hfs1 & Hpi).
      { subst w1. destruct (tts w (call s i)) as [audio|].
        - exists true. simpl. split; [done|]. split.
          + intros p Hp. by rewrite lookup_insert_ne.
          + exists audio. apply lookup_insert_eq.
        - exists false. simpl. done. }
      exists (Synthesis (call s i) ok :: evs).
      destruct (synthesize_parts _ _ _ _ _ (S i) rest _ w1) as [T' w'].
      destruct Hspec as (HT & Htr & Hkeep & Hcall).
      split; [by rewrite HT, <- app_assoc|].
      split; [by rewrite Htr, Htr1, <- app_assoc|]. split.
      * intros p Hp.
        assert (p <> P i) as Hne.
        { destruct Hp as [[x Hx]|Hp]; [congruence|]. apply Hp. simpl. lia. }
        rewrite calls_to_cons_other by (cbn [file_path]; by apply not_eq_sym).
        rewrite <- (Hfs1 p Hne). apply Hkeep. rewrite (Hfs1 p Hne).
        destruct Hp as [Hp|Hp]; [by left|]. right. intros j Hj. apply Hp. simpl. lia.
      * intros [|j] s' Hj Hn.
        -- rewrite Nat.add_0_r in *. simpl in Hj. injection Hj as <-.
           exists ok. change (P i) with (file_path (call s i)) at 1.
           rewrite calls_to_cons_same. cbn [file_path].
           destruct (Hkeep (P i)) as [Hsame ->].
           { right. intros j Hj Heq. apply part_filename_inj in Heq. lia. }
           split; [done|]. rewrite Hsame. done.
        -- simpl in Hj. replace (i + S j) with (S i + j) in * by lia.
           assert (P (S i + j) <> P i) as Hne.
           { intros Heq. apply part_filename_inj in Heq. lia. }
           rewrite calls_to_cons_other by (cbn [file_path]; by apply not_eq_sym).
           apply Hcall; [done|]. by rewrite Hfs1.
Qed.

End LoopFacts.

(** The engine calls of the loop, in order. *)

Section LoopCalls.

Variable tts : tts_model.
Variables reference_audio language : string.
Variable kwargs : gen_params.
Variable parts_dir : string.

Local Abbreviation P := (part_filename parts_dir).

Lemma synth_paths_app (a b : list event) : synth_paths (a ++ b) = synth_paths a ++ synth_paths b.
Proof. unfold synth_paths. apply omap_app. Qed.

Lemma synth_paths_cons (c : tts_call) (ok : bool) (evs : list event) :
  synth_paths (Synthesis c ok :: evs) = file_path c :: synth_paths evs.
Proof. reflexivity. Qed.

Lemma synth_paths_length (evs : list event) :
  Forall is_synthesis evs -> length (synth_paths evs) = length evs.
Proof.
  induction 1 as [|e evs (c & ok & ->) _ IH]; [done|].
  rewrite synth_paths_cons. simpl. by rewrite IH.
Qed.

(** The loop calls the engine for the parts missing when it starts, once
    each and in index order, and logs nothing else. *)
Lemma synthesize_parts_calls (sentences : list str) :
  forall (i : nat) (temp_wav_files : list string) (w : world),
    Forall (fun s => truthy (strip s) = true) sentences ->
    exists evs,
      trace (snd (synthesize_parts tts reference_audio language kwargs parts_dir i
                    sentences temp_wav_files w)) = trace w ++ evs /\
      Forall is_synthesis evs /\
      synth_paths evs
      = List.filter (fun p => negb (exists_ w p)) (map P (seq i (length sentences))).
Proof.
  induction sentences as [|s rest IH]; intros i T w Hall.
  - exists []. simpl. by rewrite app_nil_r.
  - apply Forall_cons in Hall as [Hs Hall].
    cbn [synthesize_parts]. rewrite Hs. cbn [negb length seq map List.filter].
    destruct (exists_ w (P i)) eqn:Hex; cbn [negb].
    + apply IH, Hall.
    + rewrite guarded_call. cbn [file_path].
      set (c := TtsCall s reference_audio language (P i) kwargs).
      set (w1 := match tts w c with
                 | Some audio => log (Synthesis c true) (write_file (P i) audio w)
                 | None => log (Synthesis c false) w
                 end).
      assert (exists ok, trace w1 = trace w ++ [Synthesis c ok] /\
                forall p, p <> P i -> exists_ w1 p = exists_ w p) as (ok & Htr1 & Hex1).
      { subst w1. destruct (tts w c) as [audio|].
        - exists true. split; [done|]. intros p Hp. unfold exists_. simpl.
          by rewrite lookup_insert_ne.
        - exists false. done. }
      destruct (IH (S i) (T ++ [P i]) w1 Hall) as (evs & Htr & Hsyn & Hpaths).
      exists (Synthesis c ok :: evs). split; [|split].
      * by rewrite Htr, Htr1, <- app_assoc.
      * constructor; [by exists c, ok|done].
      * rewrite synth_paths_cons. cbn [file_path c]. f_equal. rewrite Hpaths.
        apply List.filter_ext_in. intros p Hp. f_equal. apply Hex1.
        apply in_map_iff in Hp as (j & <- & Hj). apply in_seq in Hj.
        intros Heq. apply part_filename_inj in Heq. lia.
Qed.

End LoopCalls.

(** ** Runs of [process_long_text] *)

Section RunFacts.

Variable abspath : string -> string.
Variable ffmpeg : process_runner.
Variable tts : tts_model.
Variables reference_audio language : string.
Variable kwargs : gen_params.

Lemma sentences_nonblank (max_chunk_length : nat) (text : str) :
  Forall (fun s => truthy (strip s) = true) (split_sentences max_chunk_length text).
Proof.
  eapply Forall_impl; [apply split_sentences_trimmed|].
  intros s [Hne Hfix]. simpl. rewrite Hfix. by apply truthy_true.
Qed.

Lemma ensure_parts_dir_trace (parts_dir : string) (w : world) :
  trace (ensure_parts_dir parts_dir w) = trace w.
Proof. unfold ensure_parts_dir. by destruct (negb (exists_ w parts_dir)). Qed.

Lemma ensure_parts_dir_other (parts_dir p : string) (w : world) :
  p <> parts_dir -> fs (ensure_parts_dir parts_dir w) !! p = fs w !! p.
Proof.
  intros Hne. unfold ensure_parts_dir. destruct (negb (exists_ w parts_dir)); [|done].
  simpl. by rewrite lookup_insert_ne.
Qed.

Lemma ensure_parts_dir_fs (parts_dir : string) (w : world) :
  fs (ensure_parts_dir parts_dir w) =
  if exists_ w parts_dir then fs w else <[parts_dir := Dir]> (fs w).
Proof. unfold ensure_parts_dir. by destruct (exists_ w parts_dir). Qed.

Lemma write_list_file_trace (p : string) (T : list string) (w : world) :
  trace (write_list_file abspath p T w) = trace w.
Proof. done. Qed.

Lemma write_list_file_other (p q : string) (T : list string) (w : world) :
  q <> p -> fs (write_list_file abspath p T w) !! q = fs w !! q.
Proof. intros Hne. unfold write_list_file. simpl. by rewrite !lookup_insert_ne. Qed.

Lemma filter_exists_written (p : string) (T : list string) (w : world) :
  p ∉ T -> List.filter (exists_ (write_file p "" w)) T = List.filter (exists_ w) T.
Proof.
  intros Hp. induction T as [|q T IH]; [done|].
  apply not_elem_of_cons in Hp as [Hne Hp]. simpl. rewrite (IH Hp).
  unfold exists_ at 1 3. simpl. by rewrite lookup_insert_ne.
Qed.

Lemma write_list_file_content (p : string) (T : list string) (w : world) :
  p ∉ T ->
  fs (write_list_file abspath p T w) !! p
  = Some (File (manifest abspath (List.filter (exists_ w) T))).
Proof.
  intros Hp. unfold write_list_file, manifest. cbn [fs write_file].
  rewrite lookup_insert_eq. by rewrite filter_exists_written.
Qed.

(** The join step never raises: it returns the output path, with the
    output written when FFmpeg succeeds and the world untouched, apart from
    the trace, when it fails. *)
Lemma concatenate_spec (list_file_path output_path : string) (w : world) :
  concatenate ffmpeg list_file_path output_path w =
  (Returned output_path,
   match ffmpeg w (concat_command list_file_path output_path) with
   | Some out =>
       log (Subprocess (concat_command list_file_path output_path) true)
         (write_file output_path out w)
   | None => log (Subprocess (concat_command list_file_path output_path) false) w
   end).
Proof.
  unfold concatenate, bind, try_except, subprocess_run.
  by destruct (ffmpeg w (concat_command list_file_path output_path)).
Qed.

Lemma process_long_text_short (text : str) (output_path : string) (max_chunk_length : nat)
    (w : world) :
  length (split_sentences max_chunk_length text) <= 1 ->
  process_long_text abspath ffmpeg tts reference_audio text output_path language
    max_chunk_length kwargs w
  = clone_voice tts reference_audio text output_path language kwargs
      (ensure_parts_dir (parts_dir_of abspath output_path) w).
Proof.
  intros H. unfold process_long_text. apply Nat.leb_le in H. by rewrite H.
Qed.

Lemma process_long_text_long (text : str) (output_path : string) (max_chunk_length : nat)
    (w : world) :
  1 < length (split_sentences max_chunk_length text) ->
  process_long_text abspath ffmpeg tts reference_audio text output_path language
    max_chunk_length kwargs w
  = concatenate ffmpeg (list_file_of abspath output_path) output_path
      (join_world abspath tts reference_audio text output_path language
         max_chunk_length kwargs w).
Proof.
  intros H. unfold process_long_text, join_world, after_loop, list_file_of.
  destruct (Nat.leb_spec (length (split_sentences max_chunk_length text)) 1); [lia|].
  by destruct (synthesize_parts _ _ _ _ _ _ _ _ _).
Qed.

Section Staging.

Variable text : str.
Variable output_path : string.
Variable max_chunk_length : nat.
Variable w : world.

Local Abbreviation segs := (split_sentences max_chunk_length text).
Local Abbreviation P := (part_filename (parts_dir_of abspath output_path)).
Local Abbreviation staged :=
  (after_loop abspath tts reference_audio text output_path language max_chunk_length
     kwargs w).
Local Abbreviation w3 :=
  (join_world abspath tts reference_audio text output_path language max_chunk_length
     kwargs w).

(** The long-text path up to the start of the join, for the segments of
    the input. *)
Lemma staging_spec :
  exists evs,
    fst staged = map P (seq 0 (length segs)) /\
    trace (snd staged) = trace w ++ evs /\
    trace w3 = trace (snd staged) /\
    (forall j, j < length segs -> is_Some (fs w !! P j) ->
       fs (snd staged) !! P j = fs w !! P j /\ calls_to (P j) evs = []) /\
    (forall j s, segs !! j = Some s -> fs w !! P j = None ->
       exists ok,
         calls_to (P j) evs
         = [Synthesis (TtsCall s reference_audio language (P j) kwargs) ok] /\
         if ok then exists audio, fs (snd staged) !! P j = Some (File audio)
         else fs (snd staged) !! P j = None) /\
    (forall p, p <> list_file_of abspath output_path -> fs w3 !! p = fs (snd staged) !! p) /\
    fs w3 !! list_file_of abspath output_path
    = Some (File (manifest abspath (List.filter (exists_ (snd staged)) (fst staged)))).
Proof.
  unfold join_world, after_loop.
  destruct (synthesize_parts_spec tts reference_audio language kwargs
              (parts_dir_of abspath output_path) segs 0 []
              (ensure_parts_dir (parts_dir_of abspath output_path) w)
              (sentences_nonblank max_chunk_length text)) as [evs Hspec].
  destruct (synthesize_parts _ _ _ _ _ _ _ _ _) as [T w2].
  destruct Hspec as (HT & Htr & Hkeep & Hcall). simpl in HT. cbn [fst snd].
  assert (forall j, fs (ensure_parts_dir (parts_dir_of abspath output_path) w) !! P j
                    = fs w !! P j) as Hens.
  { intros j. apply ensure_parts_dir_other, part_filename_not_parts_dir. }
  exists evs. split; [done|]. split; [by rewrite Htr, ensure_parts_dir_trace|].
  split; [done|]. split; [|split; [|split]].
  - intros j Hj Hsome. rewrite <- Hens. apply Hkeep. left. by rewrite Hens.
  - intros j s Hs Hnone. apply (Hcall j s Hs). by rewrite Hens.
  - intros p Hp. by apply write_list_file_other.
  - apply write_list_file_content. rewrite HT. intros Hin.
    apply list_elem_of_fmap in Hin as (j & Heq & _).
    symmetry in Heq. by apply part_filename_not_list_file in Heq.
Qed.

(** The whole long-text run: it returns the output path, and its world is
    the join world plus the outcome of FFmpeg. *)
Lemma long_run_spec :
  1 < length segs ->
  exists okj w',
    process_long_text abspath ffmpeg tts reference_audio text output_path language
      max_chunk_length kwargs w = (Returned output_path, w') /\
    trace w' = trace w3 ++
      [Subprocess (concat_command (list_file_of abspath output_path) output_path) okj] /\
    (forall p, p <> output_path -> fs w' !! p = fs w3 !! p) /\
    (okj = false -> fs w' = fs w3) /\
    (okj = false <->
     ffmpeg w3 (concat_command (list_file_of abspath output_path) output_path) = None).
Proof.
  intros Hlong. rewrite process_long_text_long by done. rewrite concatenate_spec.
  destruct (ffmpeg w3 _) as [out|].
  - exists true. eexists. split; [done|]. simpl. split; [done|]. split.
    + intros p Hp. by rewrite lookup_insert_ne.
    + done.
  - exists false. eexists. split; [done|]. simpl. done.
Qed.

Lemma calls_to_app (p : string) (a b : list event) :
  calls_to p (a ++ b) = calls_to p a ++ calls_to p b.
Proof. apply List.filter_app. Qed.

End Staging.

End RunFacts.

(** ** Resume, failures and the join *)

Section LongTextRuns.

Variable abspath : string -> string.
Variable ffmpeg : process_runner.
Variable tts : tts_model.
Variables reference_audio language : string.
Variable kwargs : gen_params.
Variable text : str.
Variable output_path : string.
Variable max_chunk_length : nat.
Variable w : world.

Local Abbreviation segs := (split_sentences max_chunk_length text).
Local Abbreviation P := (part_filename (parts_dir_of abspath output_path)).
Local Abbreviation staged :=
  (after_loop abspath tts reference_audio text output_path language max_chunk_length
     kwargs w).
Local Abbreviation w3 :=
  (join_world abspath tts reference_audio text output_path language max_chunk_length
     kwargs w).
Local Abbreviation run :=
  (process_long_text abspath ffmpeg tts reference_audio text output_path language
     max_chunk_length kwargs w).

(** A part that exists when the run starts: the loop leaves it as it is and
    the whole run makes no engine call for it. *)
Lemma existing_part_skipped (j : nat) :
  1 < length segs -> j < length segs -> is_Some (fs w !! P j) ->
  fst run = Returned output_path /\
  calls_to (P j) (new_events w (snd run)) = [] /\
  fs (snd staged) !! P j = fs w !! P j /\
  fs w3 !! P j = fs w !! P j /\
  (output_path <> P j -> fs (snd run) !! P j = fs w !! P j).
Proof.
  intros Hlong Hj Hsome.
  destruct (long_run_spec abspath ffmpeg tts reference_audio language kwargs text
              output_path max_chunk_length w Hlong)
    as (okj & w' & Hrun & Htr & Hfs & _).
  destruct (staging_spec abspath tts reference_audio language kwargs text output_path
              max_chunk_length w)
    as (evs & HT & Htr2 & Htr3 & Hkeep & _ & Hother & _).
  destruct (Hkeep j Hj Hsome) as [Hsame Hcalls].
  assert (fs w3 !! P j = fs w !! P j) as H3.
  { rewrite Hother; [done|]. apply part_filename_not_list_file. }
  rewrite Hrun. cbn [fst snd]. repeat split; try done.
  - erewrite new_events_app; [|by rewrite Htr, Htr3, Htr2, <- app_assoc].
    rewrite calls_to_app, Hcalls. done.
  - intros Hne. rewrite Hfs by done. done.
Qed.


(** C10. A staged file that exists but is empty is skipped like a complete
    one: the resume test looks at existence only, so no engine call is made
    for that segment, the file is still empty after the loop, and it is among
    the paths written to the list file for the join. *)
Theorem empty_staged_file_is_skipped (j : nat) :
  1 < length segs -> j < length segs -> fs w !! P j = Some (File "") ->
  calls_to (P j) (new_events w (snd run)) = [] /\
  fs (snd staged) !! P j = Some (File "") /\
  P j ∈ List.filter (exists_ (snd staged)) (fst staged).
Proof.
  intros Hlong Hj Hempty.
  assert (is_Some (fs w !! P j)) as Hsome by (by rewrite Hempty).
  destruct (existing_part_skipped j Hlong Hj Hsome) as (_ & Hc & Hs & _).
  rewrite Hempty in Hs. repeat split; try done.
  destruct (staging_spec abspath tts reference_audio language kwargs text output_path
              max_chunk_length w) as (evs & HT & _).
  apply list_elem_of_In, List.filter_In. split.
  - rewrite HT. apply in_map, in_seq. lia.
  - unfold exists_. by rewrite Hs.
Qed.

Lemma filter_seq_sorted (f : nat -> bool) (n i : nat) :
  StronglySorted lt (List.filter f (seq i n)) /\
  Forall (fun k => i <= k) (List.filter f (seq i n)).
Proof.
  revert i. induction n as [|n IH]; intros i; simpl.
  - split; constructor.
  - destruct (IH (S i)) as [Hs Hall].
    assert (Forall (fun k => i < k) (List.filter f (seq (S i) n))) as Hlt.
    { eapply Forall_impl; [exact Hall|]. simpl. lia. }
    destruct (f i).
    + split; constructor; try done.
      eapply Forall_impl; [exact Hlt|]. simpl. lia.
    + split; [done|]. eapply Forall_impl; [exact Hlt|]. simpl. lia.
Qed.

Lemma filter_none {A} (f : A -> bool) (l : list A) :
  (forall x, x ∈ l -> f x = false) -> List.filter f l = [].
Proof.
  induction l as [|x l IH]; intros H; [done|]. simpl.
  rewrite (H x) by apply list_elem_of_here. apply IH.
  intros y Hy. apply H. by apply list_elem_of_further.
Qed.


(** C5. The splitter's output covers the input exactly once: every segment
    is non-empty and trimmed; the input is the segments in order, separated
    and surrounded only by whitespace, so its non-whitespace characters are
    those of the concatenated segments, each once and in order; and the
    segments are numbered from 1 without gaps, segment number [k] being
    staged as part [k]. *)
Theorem segments_cover_input :
  Forall (fun s => s <> [] /\ strip s = s) segs /\
  covers segs text /\
  nonspace (concat segs) = nonspace text /\
  fst staged =
    map (fun k => Path.join (parts_dir_of abspath output_path)
                    ("part_" +:+ Path.format_04d k +:+ ".wav"))
        (seq 1 (length segs)).
Proof.
  assert (covers segs text) as Hcov.
  { destruct (split_sentences_chunks max_chunk_length text)
      as (chunks & rest & Heq & _ & _ & Hsplit).
    rewrite Hsplit. clear Hsplit. rewrite Heq. apply covers_chunks. }
  split; [apply split_sentences_trimmed|]. split; [done|].
  split; [by apply covers_nonspace|].
  destruct (staging_spec abspath tts reference_audio language kwargs text output_path
              max_chunk_length w) as (evs & HT & _).
  rewrite HT, <- seq_shift, map_map. apply map_ext. intros k.
  unfold part_filename. by rewrite Nat.add_1_r.
Qed.

End LongTextRuns.

(** ** The long-text run when the file system can refuse *)

Lemma chars_app (a b : string) : Path.chars (a +:+ b) = Path.chars a ++ Path.chars b.
Proof.
  unfold Path.chars. induction a as [|c a IH]; [done|].
  change (String c a +:+ b) with (String c (a +:+ b)). simpl. by rewrite IH.
Qed.

Lemma of_chars_chars (s : string) : Path.of_chars (Path.chars s) = s.
Proof. apply String.string_of_list_ascii_of_string. Qed.

Lemma endswith_sep_voice_parts (d : string) :
  String.eqb (d +:+ "voice_parts") "" || Path.endswith_sep (d +:+ "voice_parts") = false.
Proof.
  assert (Path.endswith_sep (d +:+ "voice_parts") = false) as ->.
  { induction d as [|c d IH]; [reflexivity|].
    change (String c d +:+ "voice_parts") with (String c (d +:+ "voice_parts")).
    cbn [Path.endswith_sep]. destruct (d +:+ "voice_parts") eqn:E; [by destruct d|].
    exact IH. }
  by destruct d.
Qed.

Lemma dirname_list_file_of (d : string) :
  Path.dirname (Path.join (d +:+ "voice_parts") "input_list.txt") = d +:+ "voice_parts".
Proof.
  unfold Path.join. cbn [Path.startswith_sep]. 
  replace (Ascii.eqb "i" Path.sep) with false by reflexivity.
  rewrite endswith_sep_voice_parts.
  unfold Path.dirname. rewrite !chars_app, !rev_app_distr.
  set (R := rev (Path.chars d)).
  change (Path.drop_while (fun c : ascii => negb (Path.is_sep c)) _)
    with ("/"%char :: rev (Path.chars "voice_parts") ++ R).
  destruct (forallb Path.is_sep _) eqn:E.
  { exfalso. rewrite forallb_forall in E. specialize (E "s"%char).
    discriminate E. apply in_rev. rewrite rev_involutive. right.
    apply in_or_app. left. simpl. tauto. }
  rewrite rev_involutive.
  change (Path.drop_while Path.is_sep _) with (rev (Path.chars "voice_parts") ++ R).
  subst R. rewrite rev_app_distr, !rev_involutive, <- chars_app.
  apply of_chars_chars.
Qed.


Lemma drop_while_suffix {A} (f : A -> bool) (l : list A) :
  exists a, l = a ++ Path.drop_while f l.
Proof.
  induction l as [|x l IH]; [by exists []|]. simpl.
  destruct (f x); [|by exists []].
  destruct IH as [a Ha]. exists (x :: a). simpl. by rewrite <- Ha.
Qed.

Lemma rev_drop_while_prefix {A} (f : A -> bool) (l : list A) :
  exists b, l = rev (Path.drop_while f (rev l)) ++ b.
Proof.
  destruct (drop_while_suffix f (rev l)) as [a Ha].
  exists (rev a). rewrite <- rev_app_distr, <- Ha. by rewrite rev_involutive.
Qed.

Lemma of_chars_length (l : list ascii) : String.length (Path.of_chars l) = length l.
Proof. induction l as [|c l IH]; [done|]. simpl. by rewrite IH. Qed.

Lemma chars_length (s : string) : length (Path.chars s) = String.length s.
Proof. induction s as [|c s IH]; [done|]. simpl. by rewrite IH. Qed.

(** [dirname p] is a prefix of [p]: it is [p] itself or shorter. *)
Lemma dirname_shorter (p : string) :
  Path.dirname p = p \/ String.length (Path.dirname p) < String.length p.
Proof.
  assert (exists x b, Path.dirname p = Path.of_chars x /\ Path.chars p = x ++ b)
    as (x & b & -> & Hp).
  { unfold Path.dirname.
    destruct (rev_drop_while_prefix (fun c => negb (Path.is_sep c)) (Path.chars p))
      as [b Hb].
    set (head := rev (Path.drop_while _ (rev (Path.chars p)))) in *.
    destruct (forallb Path.is_sep head); [by exists head, b|].
    destruct (rev_drop_while_prefix Path.is_sep head) as [b' Hb'].
    eexists _, (b' ++ b). split; [done|]. by rewrite app_assoc, <- Hb'. }
  destruct b as [|c b].
  - left. rewrite app_nil_r in Hp. rewrite <- Hp. apply String.string_of_list_ascii_of_string.
  - right. rewrite of_chars_length, <- chars_length, Hp, length_app. simpl. lia.
Qed.

(** The fuel of [makedirs_refused] is enough: more of it changes nothing. *)
Lemma makedirs_refused_fuel (w : world) (n : nat) :
  forall (p : string) (fuel fuel' : nat),
    String.length p <= n -> n <= fuel -> n <= fuel' ->
    makedirs_refused fuel w p = makedirs_refused fuel' w p.
Proof.
  induction n as [|n IH]; intros p fuel fuel' Hp Hf Hf'.
  - destruct p; [|simpl in Hp; lia]. by destruct fuel, fuel'.
  - destruct fuel as [|fuel]; [lia|]. destruct fuel' as [|fuel']; [lia|].
    cbn [makedirs_refused].
    destruct (String.eqb (Path.dirname p) "" || String.eqb (Path.dirname p) p) eqn:E;
      [done|].
    destruct (fs w !! Path.dirname p) as [[|data]|]; try done.
    apply IH; try lia.
    destruct (dirname_shorter p) as [Heq|Hlt]; [|lia].
    rewrite Heq, String.eqb_refl, orb_true_r in E. discriminate E.
Qed.

Section StrictRuns.

Variable abspath : string -> string.
Variable ffmpeg : process_runner.
Variable tts : tts_model.
Variables reference_audio language : string.
Variable kwargs : gen_params.
Variable text : str.
Variable output_path : string.
Variable max_chunk_length : nat.
Variable w : world.

Local Abbreviation segs := (split_sentences max_chunk_length text).
Local Abbreviation parts_dir := (parts_dir_of abspath output_path).
Local Abbreviation list_file := (list_file_of abspath output_path).
Local Abbreviation P := (part_filename (parts_dir_of abspath output_path)).
Local Abbreviation staged :=
  (after_loop abspath tts reference_audio text output_path language max_chunk_length
     kwargs w).
Local Abbreviation w3 :=
  (join_world abspath tts reference_audio text output_path language max_chunk_length
     kwargs w).
Local Abbreviation flat :=
  (process_long_text abspath ffmpeg tts reference_audio text output_path language
     max_chunk_length kwargs w).
Local Abbreviation run :=
  (process_long_text_strict abspath ffmpeg tts reference_audio text output_path language
     max_chunk_length kwargs w).
Local Abbreviation join_command := (concat_command list_file output_path).

Lemma parts_dir_shape : exists d, parts_dir = d +:+ "voice_parts".
Proof. unfold parts_dir_of. rewrite join_relative by done. by eexists. Qed.

Lemma dirname_list_file : Path.dirname list_file = parts_dir.
Proof.
  unfold list_file_of. destruct parts_dir_shape as [d ->]. apply dirname_list_file_of.
Qed.

Lemma list_file_not_parts_dir : list_file <> parts_dir.
Proof.
  intros H. apply (f_equal String.length) in H. revert H.
  unfold list_file_of, Path.join. cbn [Path.startswith_sep]. simpl.
  destruct (String.eqb parts_dir "" || Path.endswith_sep parts_dir);
    rewrite !app_length_s; simpl; lia.
Qed.

Lemma ensure_parts_dir_is_dir :
  is_dir (ensure_parts_dir parts_dir w) parts_dir = negb (is_file w parts_dir).
Proof.
  unfold is_dir, is_file, ensure_parts_dir, exists_.
  destruct (fs w !! parts_dir) as [[|data]|] eqn:E; cbn [negb]; rewrite ?E; try done.
  simpl. by rewrite lookup_insert_eq.
Qed.

(** The loop changes no path that exists when it starts and no path
    outside the part names; everything it adds to the trace is an engine
    call. *)
Lemma after_loop_frame (p : string) :
  is_Some (fs (ensure_parts_dir parts_dir w) !! p) \/ (forall j, p <> P j) ->
  fs (snd staged) !! p = fs (ensure_parts_dir parts_dir w) !! p.
Proof.
  intros Hp. unfold after_loop.
  destruct (synthesize_parts_spec tts reference_audio language kwargs parts_dir segs 0 []
              (ensure_parts_dir parts_dir w) (sentences_nonblank max_chunk_length text))
    as [evs Hspec].
  destruct (synthesize_parts _ _ _ _ _ _ _ _ _) as [T w2].
  destruct Hspec as (_ & _ & Hkeep & _). cbn [snd].
  apply Hkeep. destruct Hp as [Hp|Hp]; [by left|]. right. intros j _. apply Hp.
Qed.

Lemma after_loop_events :
  exists evs, trace (snd staged) = trace w ++ evs /\ Forall is_synthesis evs.
Proof.
  unfold after_loop.
  destruct (synthesize_parts_calls tts reference_audio language kwargs parts_dir segs 0 []
              (ensure_parts_dir parts_dir w) (sentences_nonblank max_chunk_length text))
    as (evs & Htr & Hall & _).
  exists evs. split; [|done]. by rewrite Htr, ensure_parts_dir_trace.
Qed.

Lemma list_file_refusal :
  open_refused (snd staged) list_file = is_file w parts_dir || is_dir w list_file.
Proof.
  unfold open_refused. rewrite dirname_list_file.
  assert (is_dir (snd staged) parts_dir = negb (is_file w parts_dir)) as ->.
  { rewrite <- ensure_parts_dir_is_dir. unfold is_dir at 1 2.
    rewrite after_loop_frame; [done|]. left.
    pose proof ensure_parts_dir_is_dir as H. unfold is_dir in H.
    unfold ensure_parts_dir, exists_ in *.
    destruct (fs w !! parts_dir) eqn:E; cbn [negb]; [by rewrite E|].
    simpl. by rewrite lookup_insert_eq. }
  assert (is_dir (snd staged) list_file = is_dir w list_file) as ->.
  { unfold is_dir.
    rewrite after_loop_frame
      by (right; intros j Heq; symmetry in Heq; by apply part_filename_not_list_file in Heq).
    by rewrite ensure_parts_dir_other by apply list_file_not_parts_dir. }
  assert (String.eqb parts_dir "" = false) as ->
    by (destruct parts_dir_shape as [d ->]; by destruct d).
  by rewrite negb_involutive.
Qed.

(** The strict run either is the run of [process_long_text], or stops at
    one of the two refusals. *)
Lemma process_long_text_strict_cases :
  run =
  if staging_refused abspath output_path w then (Raised FileError, w)
  else if (1 <? length segs) && (is_file w parts_dir || is_dir w list_file)
       then (Raised FileError, snd staged)
       else flat.
Proof.
  pose proof list_file_refusal as Hopen.
  unfold process_long_text_strict, process_long_text, staging_refused,
    ensure_parts_dir_strict, makedirs_strict, bind.
  unfold after_loop in *. fold parts_dir.
  assert (forall w1,
            w1 = ensure_parts_dir parts_dir w ->
            (if length segs <=? 1
             then clone_voice tts reference_audio text output_path language kwargs
             else
               fun w0 : world =>
                 let '(temp_wav_files, w2) :=
                   synthesize_parts tts reference_audio language kwargs parts_dir 0 segs
                     [] w0 in
                 let (o, w') :=
                   write_list_file_strict abspath (Path.join parts_dir "input_list.txt")
                     temp_wav_files w2 in
                 match o with
                 | Returned _ =>
                     concatenate ffmpeg (Path.join parts_dir "input_list.txt")
                       output_path w'
                 | Raised e => (Raised e, w')
                 end) w1
            = if (1 <? length segs) && (is_file w parts_dir || is_dir w list_file)
              then (Raised FileError,
                    snd (synthesize_parts tts reference_audio language kwargs parts_dir 0
                           segs [] (ensure_parts_dir parts_dir w)))
              else
                if length segs <=? 1
                then clone_voice tts reference_audio text output_path language kwargs
                       (ensure_parts_dir parts_dir w)
                else
                  let '(temp_wav_files, w0) :=
                    synthesize_parts tts reference_audio language kwargs parts_dir 0 segs
                      [] (ensure_parts_dir parts_dir w) in
                  concatenate ffmpeg (Path.join parts_dir "input_list.txt") output_path
                    (write_list_file abspath (Path.join parts_dir "input_list.txt")
                       temp_wav_files w0)) as Hrest.
  { intros w1 ->. rewrite <- Hopen.
    destruct (Nat.leb_spec (length segs) 1) as [Hs|Hl].
    - destruct (Nat.ltb_spec 1 (length segs)); [lia|done].
    - destruct (Nat.ltb_spec 1 (length segs)); [|lia]. cbn [andb].
      destruct (synthesize_parts _ _ _ _ _ _ _ _ _) as [T w2]. cbn [snd].
      unfold write_list_file_strict, open_for_writing, bind, write_list_file, list_file_of.
      by destruct (open_refused w2 _). }
  unfold ensure_parts_dir in Hrest at 1.
  destruct (negb (exists_ w parts_dir)); cbn [andb].
  - destruct (makedirs_refused _ w parts_dir); [done|]. by apply Hrest.
  - by apply Hrest.
Qed.

Lemma new_events_same (w0 : world) : new_events w0 w0 = [].
Proof. unfold new_events. apply drop_all. Qed.

Lemma not_synthesis (args : list string) (ok : bool) (evs : list event) :
  Forall is_synthesis evs -> Subprocess args ok ∉ evs.
Proof.
  intros Hall Hin. rewrite Forall_forall in Hall.
  destruct (Hall _ Hin) as (c & ok' & Heq). discriminate Heq.
Qed.

(** The strict run on the multi-segment path, when it gets as far as the
    join. *)
Lemma strict_long_run :
  1 < length segs ->
  run = flat ->
  exists evs okj,
    run = concatenate ffmpeg list_file output_path w3 /\
    fst run = Returned output_path /\
    trace (snd staged) = trace w ++ evs /\
    Forall is_synthesis evs /\
    new_events w (snd run) = evs ++ [Subprocess join_command okj] /\
    (okj = false <-> ffmpeg w3 join_command = None) /\
    (forall p, p <> output_path -> fs (snd run) !! p = fs w3 !! p).
Proof.
  intros Hlong ->.
  destruct (long_run_spec abspath ffmpeg tts reference_audio language kwargs text
              output_path max_chunk_length w Hlong)
    as (okj & w' & Hrun & Htr & Hfs & _ & Hok).
  destruct (staging_spec abspath tts reference_audio language kwargs text output_path
              max_chunk_length w) as (evs0 & _ & _ & Htr3 & _).
  destruct after_loop_events as (evs & Htr2 & Hsyn).
  exists evs, okj. split; [by apply process_long_text_long|].
  rewrite Hrun. cbn [fst snd]. split; [done|]. split; [done|]. split; [done|].
  split; [|done]. apply new_events_app. by rewrite Htr, Htr3, Htr2, <- app_assoc.
Qed.



End StrictRuns.

(** ** The dispatch on the length of the text *)

Section Dispatch.

Variable abspath : string -> string.
Variable ffmpeg : process_runner.
Variable tts : tts_model.
Variables ref_wav output language : string.
Variable gen_params : gen_params.
Variable text : str.
Variable w : world.

(** C8. For a text of at most 500 characters the staging directory is never
    created: the cutoff of line 373 is taken on the length of the text as it
    is, before any splitting, and the single-shot path is one engine call
    against the output path, which changes no other path and creates no
    directory. *)
Theorem short_text_single_shot :
  length text <= 500 ->
  let r := synthesize abspath ffmpeg tts ref_wav text output language gen_params w in
  r = clone_voice tts ref_wav text output language gen_params w /\
  no_directory_created w (snd r) /\
  (forall p, p <> output -> fs (snd r) !! p = fs w !! p) /\
  exists ok,
    new_events w (snd r) = [Synthesis (TtsCall text ref_wav language output gen_params) ok] /\
    fst r = if ok then Returned output else Raised EngineError.
Proof.
  intros Hlen r. subst r. unfold synthesize.
  destruct (Nat.ltb_spec 500 (length text)) as [Hgt|_]; [lia|].
  split; [done|]. unfold clone_voice, bind, tts_to_file.
  destruct (tts w _) as [audio|]; cbn [fst snd].
  - split; [|split].
    + intros p Hp. simpl in Hp.
      destruct (decide (p = output)) as [->|Hne].
      * by rewrite lookup_insert_eq in Hp.
      * by rewrite lookup_insert_ne in Hp.
    + intros p Hp. simpl. by rewrite lookup_insert_ne.
    + exists true. split; [|done]. by apply new_events_app.
  - split; [by intros p Hp|]. split; [done|].
    exists false. split; [|done]. by apply new_events_app.
Qed.

End Dispatch.

(** ** The command-line driver *)

Section Driver.

Variable abspath : string -> string.
Variable ffmpeg : process_runner.
Variable mktemp : world -> string.
Variable utf8_decode : string -> option str.
Variable TTS : world -> option tts_model.
Variable ambiguity_first : bool.

Lemma auto_convert_returns (audio_path : string) (w : world) :
  exists ref_wav is_temp w',
    auto_convert_to_wav ffmpeg mktemp audio_path w = (Returned (ref_wav, is_temp), w').
Proof.
  unfold auto_convert_to_wav.
  destruct (Path.endswith (Path.lower audio_path) ".wav"); [by repeat eexists|].
  unfold try_except, bind, subprocess_run.
  destruct (ffmpeg _ _); simpl; by repeat eexists.
Qed.

Lemma synthesize_outcome (tts : tts_model) (ref_wav : string) (text : str)
    (output language : string) (g : gen_params) (w : world) :
  exists w',
    synthesize abspath ffmpeg tts ref_wav text output language g w = (Returned output, w') \/
    synthesize abspath ffmpeg tts ref_wav text output language g w = (Raised EngineError, w').
Proof.
  assert (forall w0, exists w',
            clone_voice tts ref_wav text output language g w0 = (Returned output, w') \/
            clone_voice tts ref_wav text output language g w0 = (Raised EngineError, w'))
    as Hclone.
  { intros w0. unfold clone_voice, bind, tts_to_file. destruct (tts w0 _); eauto. }
  unfold synthesize. destruct (500 <? length text); [|apply Hclone].
  destruct (decide (length (split_sentences 250 text) <= 1)) as [Hshort|Hlong].
  - rewrite process_long_text_short by done. apply Hclone.
  - rewrite process_long_text_long by lia. rewrite concatenate_spec. eauto.
Qed.

(** The [try] block of [main] catches whatever loading and synthesis raise. *)
Lemma generate_returns (args : namespace) (text : str) (g : gen_params) (w : world) :
  exists w', generate abspath ffmpeg mktemp TTS args text g w = (Returned (), w').
Proof.
  unfold generate.
  destruct (auto_convert_returns (reference args) w) as (ref_wav & is_temp & w1 & ->).
  unfold try_except, bind, load_model.
  destruct (TTS w1) as [tts|]; [|by eexists].
  destruct (synthesize_outcome tts ref_wav text (output args) (arg_language args) g w1)
    as [w2 [-> | ->]]; by eexists.
Qed.

Lemma synthesis_phase_exit (args : namespace) (text : str) (w : world) :
  exists w',
    synthesis_phase abspath ffmpeg mktemp TTS args text w
    = (Raised (SystemExit (if exists_ w' (output args) then 0 else 1)), w').
Proof.
  unfold synthesis_phase. unfold bind at 1.
  assert (exists w1, ensure_output_dir args w = (Returned (), w1)) as [w1 ->].
  { unfold ensure_output_dir. cbv zeta. destruct (_ && _); by eexists. }
  unfold bind.
  destruct (generate_returns args text
              (resolve_gen_params (arg_preset args) (arg_temperature args)
                 (arg_repetition_penalty args) (arg_speed args)) w1) as [w2 ->].
  exists w2. unfold exit_by_output, raise. by destruct (exists_ w2 (output args)).
Qed.

Lemma bind_ret {A B} (a : A) (k : A -> M B) (w : world) : bind (ret a) k w = k a w.
Proof. reflexivity. Qed.

Lemma bind_unfold {A B} (m : M A) (k : A -> M B) (w : world) :
  bind m k w =
  match m w with
  | (Returned a, w') => k a w'
  | (Raised e, w') => (Raised e, w')
  end.
Proof. reflexivity. Qed.

Lemma bind_bind {A B C} (m : M A) (k : A -> M B) (k' : B -> M C) (w : world) :
  bind (bind m k) k' w = bind m (fun a => bind (k a) k') w.
Proof. unfold bind. by destruct (m w) as [[a|e] w']. Qed.

Lemma get_text_literal (args : namespace) (w : world) :
  given_path (text_file args) = false ->
  get_text utf8_decode args w = (Returned (default [] (arg_text args)), w).
Proof. intros H. unfold get_text. by rewrite H. Qed.

Lemma get_text_file (args : namespace) (w : world) :
  given_path (text_file args) = true ->
  get_text utf8_decode args w =
  match fs w !! default "" (text_file args) with
  | None => (Raised (SystemExit 1), w)
  | Some Dir => (Raised FileError, w)
  | Some (File data) =>
      match utf8_decode data with
      | Some t => (Returned (strip t), w)
      | None => (Raised UnicodeDecodeError, w)
      end
  end.
Proof.
  intros H. unfold get_text, read_text, exists_, bind, raise, ret. rewrite H.
  destruct (fs w !! default "" (text_file args)) as [[|data]|]; try done.
  by destruct (utf8_decode data).
Qed.

(** [main] after [parse_args]: the three ways it ends. *)
Lemma validated_run (args : namespace) (w : world) :
  let body :=
    (check_text_arguments args;;;
     text <-- get_text utf8_decode args;;
     (if negb (truthy text) then raise (SystemExit 1) else ret ());;;
     check_reference args;;;
     synthesis_phase abspath ffmpeg mktemp TTS args text) in
  if negb (given_text (arg_text args)) && negb (given_path (text_file args))
     || given_text (arg_text args) && given_path (text_file args)
  then body w = (Raised (SystemExit 2), w)
  else
    if match (if given_path (text_file args)
              then match fs w !! default "" (text_file args) with
                   | Some (File data) => strip <$> utf8_decode data
                   | _ => None
                   end
              else arg_text args) with
       | Some t => negb (truthy t)
       | None => true
       end
       || negb (validate_reference_audio (reference args) w)
    then exists e, body w = (Raised e, w) /\ exit_status (Raised e) = 1%Z
    else exists w',
      body w = (Raised (SystemExit (if exists_ w' (output args) then 0 else 1)), w').
Proof.
  intros body. subst body.
  assert (forall text,
            truthy text = true -> validate_reference_audio (reference args) w = true ->
            exists w',
              ((if negb (truthy text) then raise (SystemExit 1) else ret ());;;
               check_reference args;;;
               synthesis_phase abspath ffmpeg mktemp TTS args text) w
              = (Raised (SystemExit (if exists_ w' (output args) then 0 else 1)), w'))
    as Hgo.
  { intros text Htext Href. unfold bind, check_reference, ret.
    rewrite Htext. cbn [negb]. rewrite Href. cbn [negb]. apply synthesis_phase_exit. }
  assert (forall text,
            truthy text = false \/ validate_reference_audio (reference args) w = false ->
            ((if negb (truthy text) then raise (SystemExit 1) else ret ());;;
             check_reference args;;;
             synthesis_phase abspath ffmpeg mktemp TTS args text) w
            = (Raised (SystemExit 1), w))
    as Hstop.
  { intros text H. unfold bind, check_reference, ret, raise.
    destruct (truthy text); [|done]. destruct H as [H|H]; [done|].
    cbn [negb]. by rewrite H. }
  unfold check_text_arguments, parser_error.
  destruct (given_text (arg_text args)) eqn:Hgt, (given_path (text_file args)) eqn:Hgp;
    cbn [negb andb orb]; try (unfold bind, raise; done);
    rewrite !bind_bind, !bind_ret, !(bind_unfold (get_text utf8_decode args)).
  - (* literal text *)
    rewrite get_text_literal by done.
    destruct (arg_text args) as [t|]; [|cbn in Hgt; done]. cbn [given_text] in Hgt.
    cbn [default]. rewrite Hgt. cbn [negb orb].
    destruct (validate_reference_audio (reference args) w) eqn:Href; cbn [negb].
    + by apply Hgo.
    + exists (SystemExit 1). split; [|done]. apply Hstop. by right.
  - (* text file *)
    rewrite get_text_file by done.
    destruct (fs w !! default "" (text_file args)) as [[|data]|] eqn:Hfile.
    + exists FileError. done.
    + destruct (utf8_decode data) as [t|]; cbn [fmap option_fmap option_map].
      * pose proof (Hgo (strip t)) as Hg. pose proof (Hstop (strip t)) as Hs.
        destruct (truthy (strip t)); cbn [negb orb].
        -- destruct (validate_reference_audio (reference args) w) eqn:Href; cbn [negb].
           ++ by apply Hg.
           ++ exists (SystemExit 1). split; [|done]. apply Hs. by right.
        -- exists (SystemExit 1). split; [|done]. apply Hs. by left.
      * exists UnicodeDecodeError. done.
    + exists (SystemExit 1). done.
Qed.

Lemma main_unfold (argv : list argument) :
  main abspath ffmpeg mktemp utf8_decode TTS ambiguity_first argv =
  (args <-- parse_args ambiguity_first argv;;
   check_text_arguments args;;;
   text <-- get_text utf8_decode args;;
   (if negb (truthy text) then raise (SystemExit 1) else ret ());;;
   check_reference args;;;
   synthesis_phase abspath ffmpeg mktemp TTS args text).
Proof. reflexivity. Qed.

(** What argparse makes of the arguments, from left to right. *)
Lemma consume_spec (argv : list argument) (c : cmdline) (extras : bool) :
  consume argv c extras =
  if reaches_help argv then Raised (SystemExit 0)
  else if existsb (fun a => negb (acceptable a)) argv then Raised (SystemExit 2)
       else Returned (fold_left store argv c, extras || existsb is_unrecognized argv).
Proof.
  revert c extras. induction argv as [|a argv IH]; intros c extras.
  - cbn. by rewrite orb_false_r.
  - destruct a as [|v|v|v|v|v|v|[v|]|[v|]|[v|]| | |u];
      try (cbn [consume reaches_help existsb fold_left acceptable negb andb orb
                is_unrecognized];
           rewrite ?IH; try rewrite orb_true_r; reflexivity).
    + (* --language *)
      cbn [consume reaches_help existsb fold_left].
      destruct (acceptable (Language v)); cbn [negb andb orb]; [|done].
      by rewrite IH.
    + (* --preset *)
      cbn [consume reaches_help existsb fold_left].
      destruct (acceptable (Preset v)); cbn [negb andb orb]; [|done].
      by rewrite IH.
Qed.

Lemma ambiguous_refused (argv : list argument) :
  existsb is_ambiguous argv = true -> existsb (fun a => negb (acceptable a)) argv = true.
Proof.
  rewrite !existsb_exists. intros (a & Ha & Hamb). exists a. split; [done|].
  by destruct a.
Qed.

Lemma parse_args_spec (argv : list argument) (w : world) :
  parse_args ambiguity_first argv w =
  if help_shown ambiguity_first argv then (Raised (SystemExit 0), w)
  else if existsb (fun a => negb (acceptable a)) argv
          || existsb is_unrecognized argv
          || negb (bool_decide (is_Some (opt_reference (options argv))))
       then (Raised (SystemExit 2), w)
       else
         (Returned
            (Namespace (default "" (opt_reference (options argv)))
               (opt_text (options argv)) (opt_text_file (options argv))
               (default "output.wav" (opt_output (options argv)))
               (default "en" (opt_language (options argv)))
               (opt_preset (options argv)) (opt_temperature (options argv))
               (opt_repetition_penalty (options argv)) (opt_speed (options argv))),
          w).
Proof.
  unfold parse_args, help_shown, parser_error, raise.
  destruct (ambiguity_first && existsb is_ambiguous argv) eqn:Hamb; cbn [negb andb].
  - apply andb_true_iff in Hamb as [_ Hamb].
    by rewrite (ambiguous_refused _ Hamb).
  - rewrite consume_spec. fold (options argv).
    destruct (reaches_help argv); [done|].
    destruct (existsb (fun a => negb (acceptable a)) argv); [done|].
    cbn [orb].
    destruct (opt_reference (options argv)) as [reference|] eqn:Href.
    + rewrite bool_decide_eq_true_2 by (by eexists). cbn [negb].
      rewrite orb_false_r. by destruct (existsb is_unrecognized argv).
    + rewrite bool_decide_eq_false_2 by (by intros [? ?]). cbn [negb].
      by rewrite orb_true_r.
Qed.

Lemma run_cases (argv : list argument) (w : world) :
  let run := run abspath ffmpeg mktemp utf8_decode TTS ambiguity_first in
  if help_shown ambiguity_first argv then run argv w = (0%Z, w)
  else if usage_error argv then run argv w = (2%Z, w)
  else if input_error utf8_decode (options argv) w then run argv w = (1%Z, w)
  else exists w',
    run argv w
    = ((if exists_ w' (default "output.wav" (opt_output (options argv))) then 0 else 1)%Z,
       w').
Proof.
  intros run0. subst run0. unfold run. rewrite main_unfold.
  rewrite !(bind_unfold (parse_args ambiguity_first argv)), parse_args_spec.
  destruct (help_shown ambiguity_first argv); [done|].
  unfold usage_error.
  destruct (existsb (fun a => negb (acceptable a)) argv
            || existsb is_unrecognized argv
            || negb (bool_decide (is_Some (opt_reference (options argv)))));
    cbn [orb]; [done|].
  match goal with
  | |- context [check_text_arguments ?a] => pose proof (validated_run a w) as Hv
  end.
  cbv zeta in Hv. cbn [arg_text text_file reference output] in Hv.
  unfold input_error, input_text.
  destruct (_ || _); [by rewrite Hv|].
  destruct (_ || _).
  - destruct Hv as (e & -> & He). by rewrite He.
  - destruct Hv as (w' & ->). by exists w'.
Qed.


End Driver.

(** ** The properties on sample runs *)

Section SampleRuns.

Import Samples.

Local Abbreviation run_long tts ffmpeg w :=
  (process_long_text abspath ffmpeg tts "ref.wav" thirty_sentences "out.wav" "en" 250
     neutral_params w).

Local Abbreviation run_strict tts ffmpeg w :=
  (process_long_text_strict abspath ffmpeg tts "ref.wav" thirty_sentences "out.wav" "en"
     250 neutral_params w).
Local Abbreviation part n := (part_filename (parts_dir_of abspath "out.wav") n).

Example sample_paths :
  parts_dir_of abspath "out.wav" = "/w/voice_parts" /\
  part 0 = "/w/voice_parts/part_0001.wav" /\
  part 1 = "/w/voice_parts/part_0002.wav" /\
  list_file_of abspath "out.wav" = "/w/voice_parts/input_list.txt" /\
  length thirty_sentences = 600 /\
  length (split_sentences 250 thirty_sentences) = 30.
Proof. repeat split; vm_compute; reflexivity. Qed.




Lemma empty_staged_file_is_skipped_witness :
  1 < length (split_sentences 250 thirty_sentences) /\
  fs interrupted_world !! part 1 = Some (File "") /\
  calls_to (part 1) (new_events interrupted_world
                       (snd (run_long tts_ok ffmpeg_ok interrupted_world))) = [].
Proof.
  assert (1 < length (split_sentences 250 thirty_sentences)) as Hlong by (vm_compute; lia).
  assert (fs interrupted_world !! part 1 = Some (File "")) as Hfile
    by (vm_compute; reflexivity).
  split; [exact Hlong|]. split; [exact Hfile|].
  exact (proj1
    (empty_staged_file_is_skipped abspath ffmpeg_ok tts_ok "ref.wav" "en"
       neutral_params thirty_sentences "out.wav" 250 interrupted_world 1 Hlong
       ltac:(vm_compute; lia) Hfile)).
Defined.

(** C4, as stated, fails: where the name of the staging directory is
    taken by a regular file, the engine raises for every segment, each
    failure is skipped, and then the list file cannot be opened (line 227,
    outside any [try]): the run raises, no list file is written and no join
    is started. *)
Lemma staging_name_taken_by_a_file :
  let r := run_strict tts_down ffmpeg_ok world_with_staging_file in
  1 < length (split_sentences 250 thirty_sentences) /\
  fs world_with_staging_file !! parts_dir_of abspath "out.wav" = Some (File "") /\
  Synthesis (TtsCall sentence20 "ref.wav" "en" (part 0) neutral_params) false
  ∈ new_events world_with_staging_file (snd r) /\
  fst r = Raised FileError /\
  raises (fst r) /\
  length (new_events world_with_staging_file (snd r)) = 30 /\
  length (synth_paths (new_events world_with_staging_file (snd r))) = 30 /\
  fs (snd r) !! list_file_of abspath "out.wav" = None.
Proof.
  intros r.
  assert (fst r = Raised FileError) as Hr by (vm_compute; reflexivity).
  split; [vm_compute; lia|]. split; [vm_compute; reflexivity|].
  split; [apply list_elem_of_In; vm_compute; left; reflexivity|].
  split; [exact Hr|]. split; [rewrite Hr; by eexists|].
  repeat split; vm_compute; reflexivity.
Qed.

(** Where [/w] itself is a regular file, [os.makedirs] is refused (line
    169) before any engine call. *)
Example staging_directory_refused :
  staging_refused abspath "out.wav" world_with_file_above = true /\
  run_strict tts_ok ffmpeg_ok world_with_file_above
  = (Raised FileError, world_with_file_above).
Proof. split; vm_compute; reflexivity. Qed.




Lemma short_text_single_shot_witness :
  length (py "Hello") <= 500 /\
  no_directory_created empty_world
    (snd (synthesize abspath ffmpeg_ok tts_ok "ref.wav" (py "Hello") "out.wav" "en"
            neutral_params empty_world)).
Proof.
  assert (length (py "Hello") <= 500) as H by (vm_compute; lia).
  split; [exact H|].
  exact (proj1 (proj2
    (short_text_single_shot abspath ffmpeg_ok tts_ok "ref.wav" "out.wav" "en"
       neutral_params (py "Hello") empty_world H))).
Defined.

(** A second run over the staging directory a first run has filled makes
    no engine call at all. *)
Example rerun_makes_no_calls :
  let first := run_long tts_ok ffmpeg_fails empty_world in
  let second := run_long tts_down ffmpeg_ok (snd first) in
  length (new_events empty_world (snd first)) = 31 /\
  new_events (snd first) (snd second)
  = [Subprocess (concat_command "/w/voice_parts/input_list.txt" "out.wav") true] /\
  fs (snd second) !! "out.wav" = Some (File "JOINED").
Proof. repeat split; vm_compute; reflexivity. Qed.

(** A text of exactly 500 characters goes to the engine in one piece,
    although the splitter would cut it into 25 segments. *)
Example cutoff_before_splitting :
  length twenty_five_sentences = 500 /\
  length (split_sentences 250 twenty_five_sentences) = 25 /\
  trace (snd (synthesize abspath ffmpeg_ok tts_ok "ref.wav" twenty_five_sentences "out.wav"
                "en" neutral_params empty_world))
  = [Synthesis (TtsCall twenty_five_sentences "ref.wav" "en" "out.wav" neutral_params) true].
Proof. repeat split; vm_compute; reflexivity. Qed.


End SampleRuns.

(** * Further properties of the code *)

(** ** Sizes and edge cases of the splitter *)

Section SplitterEdges.

Lemma closed_chunks_length (chunks : list str) :
  Forall closed_chunk chunks -> 20 * length chunks <= length (concat chunks).
Proof.
  induction 1 as [|b chunks [Hc _] _ IH]; simpl; [lia|].
  destruct (closes_inv b Hc) as [Hlen _]. rewrite length_app. lia.
Qed.

Lemma covers_length (segments : list str) (t : str) :
  covers segments t -> length (concat segments) <= length t.
Proof.
  induction 1 as [gap _|gap s segments rest _ _ IH]; simpl; [lia|].
  rewrite !length_app. lia.
Qed.

(** A text of [n] characters gives at most [n / 20 + 1] segments, and the
    segments together hold at most [n] characters: every segment but the
    last uses up at least 20 characters of the input. *)
Theorem segment_size_bounds (max_chunk_length : nat) (text : str) :
  20 * (length (split_sentences max_chunk_length text) - 1) <= length text /\
  length (split_sentences max_chunk_length text) <= length text `div` 20 + 1 /\
  length (concat (split_sentences max_chunk_length text)) <= length text.
Proof.
  destruct (split_sentences_chunks max_chunk_length text)
    as (chunks & rest & Heq & Hall & _ & Hsplit).
  assert (20 * (length (split_sentences max_chunk_length text) - 1) <= length text) as H.
  { rewrite Hsplit, length_app, length_map.
    pose proof (closed_chunks_length chunks Hall) as Hc.
    apply (f_equal length) in Heq. rewrite length_app in Heq.
    destruct (truthy (strip rest)); simpl; lia. }
  split; [exact H|]. split.
  - pose proof (Nat.div_mod_eq (length text) 20) as Hd.
    pose proof (Nat.mod_upper_bound (length text) 20) as Hm. unfold Nat.div in *.
    destruct (length (split_sentences max_chunk_length text)); lia.
  - apply covers_length.
    rewrite Hsplit. clear H Hsplit. rewrite Heq. apply covers_chunks.
Qed.

(** The scan over an input it never closes leaves everything in the
    buffer. *)
Lemma scan_open (text : str) :
  forall sentences chunk,
    still_open (chunk ++ text) -> scan text sentences chunk = (sentences, chunk ++ text).
Proof.
  induction text as [|char text IH]; intros sentences chunk Hopen.
  - by rewrite app_nil_r.
  - rewrite scan_cons.
    assert (closes (chunk ++ [char]) = false) as ->.
    { specialize (Hopen (length chunk + 1)).
      rewrite (cons_middle char chunk text), app_assoc, take_app_le in Hopen
        by (rewrite length_app; simpl; lia).
      rewrite firstn_all2 in Hopen by (rewrite length_app; simpl; lia).
      apply Hopen. rewrite !length_app. simpl. lia. }
    rewrite IH; rewrite <- app_assoc; done.
Qed.

Lemma split_sentences_open (max_chunk_length : nat) (text : str) :
  still_open text -> split_sentences max_chunk_length text = whole_text text.
Proof.
  intros Hopen. unfold split_sentences, whole_text.
  rewrite (scan_open text [] []) by done. simpl.
  by destruct (truthy (strip text)).
Qed.

(** A text without any of [.], [!], [?] is never cut, whatever its length:
    it is one segment, the trimmed text, or no segment when it is blank. *)
Theorem text_without_terminator_is_one_segment (max_chunk_length : nat) (text : str) :
  (forall c, c ∈ text -> is_terminator c = false) ->
  split_sentences max_chunk_length text = whole_text text.
Proof.
  intros Hno. apply split_sentences_open. intros k Hk.
  destruct (closes (take k text)) eqn:Hc; [|done].
  destruct (closes_inv _ Hc) as (_ & b & c & Heq & Hterm & _).
  rewrite Hno in Hterm; [done|].
  apply (subseteq_take k text). rewrite Heq. apply elem_of_app. right. by left.
Qed.

(** A text of fewer than 20 characters is never cut, whatever terminators
    it holds. *)
Theorem text_under_twenty_is_one_segment (max_chunk_length : nat) (text : str) :
  length text < 20 ->
  split_sentences max_chunk_length text = whole_text text.
Proof.
  intros Hlen. apply split_sentences_open. intros k Hk.
  destruct (closes (take k text)) eqn:Hc; [|done].
  destruct (closes_inv _ Hc) as (Hk20 & _). rewrite length_take in Hk20. lia.
Qed.

(** The splitter yields no segment at all exactly for a text of whitespace
    only (the empty text included). *)
Theorem no_segments_iff_blank (max_chunk_length : nat) (text : str) :
  split_sentences max_chunk_length text = [] <-> blank text.
Proof.
  assert (covers (split_sentences max_chunk_length text) text) as Hcov.
  { destruct (split_sentences_chunks max_chunk_length text)
      as (chunks & rest & Heq & _ & _ & Hsplit).
    rewrite Hsplit. clear Hsplit. rewrite Heq. apply covers_chunks. }
  split.
  - intros Hnil. rewrite Hnil in Hcov. by inversion Hcov.
  - intros Hblank.
    pose proof (split_sentences_trimmed max_chunk_length text) as Htrim.
    apply covers_nonspace in Hcov. rewrite (nonspace_blank text Hblank) in Hcov.
    destruct (split_sentences max_chunk_length text) as [|s segments]; [done|].
    apply Forall_cons in Htrim as [[Hne Hfix] _].
    destruct (strip_ends s) as [E|[(c & t & E & Hc) _]]; [congruence|].
    rewrite Hfix in E. subst s. simpl in Hcov. unfold nonspace in Hcov. simpl in Hcov.
    rewrite Hc in Hcov. simpl in Hcov. discriminate Hcov.
Qed.

End SplitterEdges.

(** ** What a long-text run calls, touches and keeps *)

Section MoreRuns.

Variable abspath : string -> string.
Variable ffmpeg : process_runner.
Variable tts : tts_model.
Variables reference_audio language : string.
Variable kwargs : gen_params.
Variable text : str.
Variable output_path : string.
Variable max_chunk_length : nat.
Variable w : world.

Local Abbreviation segs := (split_sentences max_chunk_length text).
Local Abbreviation parts_dir := (parts_dir_of abspath output_path).
Local Abbreviation list_file := (list_file_of abspath output_path).
Local Abbreviation P := (part_filename (parts_dir_of abspath output_path)).
Local Abbreviation staged :=
  (after_loop abspath tts reference_audio text output_path language max_chunk_length
     kwargs w).
Local Abbreviation w3 :=
  (join_world abspath tts reference_audio text output_path language max_chunk_length
     kwargs w).
Local Abbreviation run :=
  (process_long_text abspath ffmpeg tts reference_audio text output_path language
     max_chunk_length kwargs w).
Local Abbreviation join_command := (concat_command list_file output_path).
Local Abbreviation strict :=
  (process_long_text_strict abspath ffmpeg tts reference_audio text output_path language
     max_chunk_length kwargs w).

(** The staged paths of a run are pairwise different, also beyond 9999
    parts where the number outgrows its four digits, and none of them is the
    list file or the staging directory itself. *)
Theorem staged_paths_distinct :
  let temp_wav_files :=
    fst (after_loop abspath tts reference_audio text output_path language
           max_chunk_length kwargs w) in
  NoDup temp_wav_files /\
  (list_file_of abspath output_path ∉ temp_wav_files) /\
  (parts_dir_of abspath output_path ∉ temp_wav_files).
Proof.
  destruct (staging_spec abspath tts reference_audio language kwargs text output_path
              max_chunk_length w) as (evs & HT & _).
  cbv zeta. rewrite HT. split; [|split].
  - apply NoDup_fmap_2_strong; [|apply NoDup_seq].
    intros i j _ _ Heq. by apply part_filename_inj in Heq.
  - intros Hin. apply list_elem_of_fmap in Hin as (j & Heq & _).
    symmetry in Heq. by apply part_filename_not_list_file in Heq.
  - intros Hin. apply list_elem_of_fmap in Hin as (j & Heq & _).
    symmetry in Heq. by apply part_filename_not_parts_dir in Heq.
Qed.


Lemma ensure_parts_dir_keeps (p : string) :
  is_Some (fs w !! p) -> fs (ensure_parts_dir parts_dir w) !! p = fs w !! p.
Proof.
  intros Hsome. rewrite ensure_parts_dir_fs. unfold exists_.
  destruct (fs w !! parts_dir) eqn:Hdir; [done|].
  rewrite lookup_insert_ne; [done|]. intros Heq. rewrite Heq in Hdir.
  rewrite Hdir in Hsome. by destruct Hsome.
Qed.

(** The loop of the run changes no path that exists when the run starts
    and no path outside the part names. *)
Lemma loop_frame (p : string) :
  is_Some (fs w !! p) \/ (p <> parts_dir /\ forall j, p <> P j) ->
  fs (snd staged) !! p = fs w !! p.
Proof.
  intros Hp. unfold after_loop.
  destruct (synthesize_parts_spec tts reference_audio language kwargs parts_dir segs 0 []
              (ensure_parts_dir parts_dir w) (sentences_nonblank max_chunk_length text))
    as [evs Hspec].
  destruct (synthesize_parts _ _ _ _ _ _ _ _ _) as [T w2].
  destruct Hspec as (_ & _ & Hkeep & _). cbn [snd].
  destruct Hp as [Hsome|[Hdir Hparts]].
  - rewrite <- (ensure_parts_dir_keeps p Hsome). apply Hkeep. left.
    by rewrite ensure_parts_dir_keeps.
  - rewrite <- (ensure_parts_dir_other parts_dir p w Hdir). apply Hkeep. right.
    intros j _. apply Hparts.
Qed.

Lemma join_world_other (p : string) :
  p <> list_file -> fs w3 !! p = fs (snd staged) !! p.
Proof.
  intros Hp. unfold join_world. destruct staged as [T w2]. cbn [snd].
  by apply write_list_file_other.
Qed.

Lemma run_world :
  snd run =
  if decide (length segs <= 1)
  then snd (clone_voice tts reference_audio text output_path language kwargs
              (ensure_parts_dir parts_dir w))
  else match ffmpeg w3 join_command with
       | Some out => log (Subprocess join_command true) (write_file output_path out w3)
       | None => log (Subprocess join_command false) w3
       end.
Proof.
  destruct (decide (length segs <= 1)) as [Hshort|Hlong].
  - by rewrite process_long_text_short.
  - rewrite process_long_text_long by lia. by rewrite concatenate_spec.
Qed.

Lemma clone_voice_other (c_text : str) (p : string) (w0 : world) :
  p <> output_path ->
  fs (snd (clone_voice tts reference_audio c_text output_path language kwargs w0)) !! p
  = fs w0 !! p.
Proof.
  intros Hp. unfold clone_voice, bind, tts_to_file. destruct (tts w0 _); [|done].
  simpl. by rewrite lookup_insert_ne.
Qed.

Lemma run_frame (p : string) :
  p <> parts_dir -> p <> list_file -> p <> output_path -> (forall j, p <> P j) ->
  fs (snd run) !! p = fs w !! p.
Proof.
  intros Hdir Hlist Hout Hparts. rewrite run_world.
  destruct (decide (length segs <= 1)) as [Hshort|Hlong].
  - rewrite clone_voice_other by done. by apply ensure_parts_dir_other.
  - assert (fs w3 !! p = fs w !! p) as H3.
    { rewrite join_world_other by done. apply loop_frame. right. done. }
    destruct (ffmpeg w3 join_command); simpl; [|done]. by rewrite lookup_insert_ne.
Qed.

Lemma run_keeps (p : string) :
  is_Some (fs w !! p) ->
  exists_ (snd run) p = true /\
  (p <> list_file -> p <> output_path -> fs (snd run) !! p = fs w !! p).
Proof.
  intros Hsome.
  assert (p <> output_path -> p <> list_file \/ length segs <= 1 ->
          fs (snd run) !! p = fs w !! p) as Hsame.
  { intros Hout Hlist. rewrite run_world.
    destruct (decide (length segs <= 1)) as [Hshort|Hlong].
    - rewrite clone_voice_other by done. by apply ensure_parts_dir_keeps.
    - destruct Hlist as [Hlist|?]; [|lia].
      assert (fs w3 !! p = fs w !! p) as H3.
      { rewrite join_world_other by done. apply loop_frame. by left. }
      destruct (ffmpeg w3 join_command); simpl; [|done]. by rewrite lookup_insert_ne. }
  split; [|intros Hlist Hout; apply Hsame; [done|by left]].
  unfold exists_.
  destruct (decide (p = output_path)) as [->|Hout].
  - rewrite run_world. destruct (decide (length segs <= 1)) as [Hshort|Hlong].
    + unfold clone_voice, bind, tts_to_file. destruct (tts _ _); simpl.
      * by rewrite lookup_insert_eq.
      * rewrite ensure_parts_dir_keeps by done. by destruct Hsome as [x ->].
    + destruct (ffmpeg w3 join_command); simpl; [by rewrite lookup_insert_eq|].
      destruct (decide (output_path = list_file)) as [Heq|Hne].
      * destruct (staging_spec abspath tts reference_audio language kwargs text
                    output_path max_chunk_length w) as (evs & _ & _ & _ & _ & _ & _ & Hl).
        assert (fs w3 !! output_path = fs w3 !! list_file) as -> by (f_equal; exact Heq).
        by rewrite Hl.
      * rewrite join_world_other, loop_frame by (done || by left).
        by destruct Hsome as [x ->].
  - destruct (decide (p = list_file)) as [->|Hlist].
    + rewrite run_world. destruct (decide (length segs <= 1)) as [Hshort|Hlong].
      * rewrite clone_voice_other, ensure_parts_dir_keeps by done.
        by destruct Hsome as [x ->].
      * destruct (staging_spec abspath tts reference_audio language kwargs text
                    output_path max_chunk_length w) as (evs & _ & _ & _ & _ & _ & _ & Hl).
        destruct (ffmpeg w3 join_command); simpl.
        -- rewrite lookup_insert_ne by done. by rewrite Hl.
        -- by rewrite Hl.
    + rewrite Hsame by (done || by left). by destruct Hsome as [x ->].
Qed.

(** The strict run ends in one of three worlds: the one it started in,
    the one after the loop, or the one of the run of [process_long_text]. *)
Lemma strict_world :
  snd strict = w \/ snd strict = snd staged \/ snd strict = snd run.
Proof.
  rewrite (process_long_text_strict_cases abspath ffmpeg tts reference_audio language
             kwargs text output_path max_chunk_length w).
  destruct (staging_refused abspath output_path w); [by left|].
  destruct (_ && _); right; [by left|by right].
Qed.





End MoreRuns.

(** ** Reference conversion and the guarded synthesis of [main] *)

Section Conversion.

Variable abspath : string -> string.
Variable ffmpeg : process_runner.
Variable mktemp : world -> string.
Variable TTS : world -> option tts_model.

Lemma auto_convert_cases (audio_path : string) (w : world) :
  let temp := mktemp w in
  let cmd := convert_command audio_path temp in
  auto_convert_to_wav ffmpeg mktemp audio_path w =
  if Path.endswith (Path.lower audio_path) ".wav" then (Returned (audio_path, false), w)
  else match ffmpeg (write_file temp "" w) cmd with
       | Some wav =>
           (Returned (temp, true),
            log (Subprocess cmd true) (write_file temp wav (write_file temp "" w)))
       | None =>
           (Returned (audio_path, false),
            remove temp (log (Subprocess cmd false) (write_file temp "" w)))
       end.
Proof.
  intros temp cmd. unfold auto_convert_to_wav.
  destruct (Path.endswith (Path.lower audio_path) ".wav"); [done|].
  fold temp. unfold try_except, bind, subprocess_run. fold (convert_command audio_path temp).
  fold cmd. destruct (ffmpeg (write_file temp "" w) cmd); [done|].
  cbn [is_Exception]. unfold exists_. cbn [log write_file fs].
  by rewrite lookup_insert_eq.
Qed.

(** [auto_convert_to_wav] never raises and touches no path but the
    temporary file. It answers [is_temp = False] with the path it was given,
    and then no file is left at the temporary path when a conversion was
    tried; it answers [is_temp = True] with the temporary path, which then
    holds a file. *)
Theorem auto_convert_outcomes (audio_path : string) (w : world) :
  let r := auto_convert_to_wav ffmpeg mktemp audio_path w in
  let temp := mktemp w in
  (forall p, p <> temp -> fs (snd r) !! p = fs w !! p) /\
  exists ref_wav is_temp,
    fst r = Returned (ref_wav, is_temp) /\
    if is_temp
    then ref_wav = temp /\ exists wav, fs (snd r) !! temp = Some (File wav)
    else ref_wav = audio_path /\
         (Path.endswith (Path.lower audio_path) ".wav" = true -> snd r = w) /\
         (Path.endswith (Path.lower audio_path) ".wav" = false ->
          fs (snd r) !! temp = None).
Proof.
  intros r temp. subst r. rewrite auto_convert_cases. fold temp.
  destruct (Path.endswith (Path.lower audio_path) ".wav").
  - split; [done|]. exists audio_path, false. done.
  - destruct (ffmpeg _ _) as [wav|]; cbn [fst snd log write_file remove fs].
    + split; [intros p Hp; by rewrite !lookup_insert_ne|].
      exists temp, true. split; [done|]. split; [done|].
      exists wav. apply lookup_insert_eq.
    + split; [intros p Hp; by rewrite lookup_delete_ne, lookup_insert_ne|].
      exists audio_path, false. split; [done|]. split; [done|]. split; [done|].
      intros _. apply lookup_delete_eq.
Qed.

Variable args : namespace.
Variable text : str.
Variable gen_params : gen_params.
Variable w : world.

Local Abbreviation temp := (mktemp w).
Local Abbreviation gen := (generate abspath ffmpeg mktemp TTS args text gen_params w).

(** Whatever loading the model or the synthesis raises is caught by the
    [try] block of [main]: [generate] always returns normally, so the final
    test on the output file is always reached. *)
Theorem synthesis_errors_never_escape :
  fst (generate abspath ffmpeg mktemp TTS args text gen_params w) = Returned ().
Proof. destruct (generate_returns abspath ffmpeg mktemp TTS args text gen_params w) as [w' ->]. done. Qed.

(** When the reference was converted, the temporary WAV is gone at the end
    of the [try] block, whether loading and synthesis succeeded or not. *)
Theorem temporary_wav_is_removed :
  Path.endswith (Path.lower (reference args)) ".wav" = false ->
  is_Some (ffmpeg (write_file temp "" w) (convert_command (reference args) temp)) ->
  exists_ (snd gen) temp = false.
Proof.
  intros Hext [wav Hok]. unfold generate.
  pose proof (auto_convert_cases (reference args) w) as Hc. cbv zeta in Hc.
  rewrite Hext, Hok in Hc. rewrite Hc.
  destruct (try_except _ _ _) as [r w2]. cbn [snd]. unfold remove_temp. cbn [andb].
  destruct (exists_ w2 temp) eqn:Hex; [|done].
  unfold exists_. simpl. by rewrite lookup_delete_eq.
Qed.

Lemma remove_temp_after_conversion (w2 : world) (p : string) :
  p <> temp -> fs (remove_temp temp true w2) !! p = fs w2 !! p.
Proof.
  intros Hp. unfold remove_temp. cbn [andb]. destruct (exists_ w2 temp); [|done].
  simpl. by rewrite lookup_delete_ne.
Qed.

Lemma remove_temp_trace (ref_wav : string) (is_temp : bool) (w2 : world) :
  trace (remove_temp ref_wav is_temp w2) = trace w2.
Proof. unfold remove_temp. by destruct (is_temp && exists_ w2 ref_wav). Qed.

Lemma generate_load_failure :
  (forall w0, TTS w0 = None) ->
  exists evs,
    trace (snd gen) = trace w ++ evs /\
    Forall (fun e => ~ is_synthesis e) evs /\
    (forall p, p <> temp -> fs (snd gen) !! p = fs w !! p).
Proof.
  intros Hload. unfold generate.
  pose proof (auto_convert_cases (reference args) w) as Hc. cbv zeta in Hc. rewrite Hc.
  assert (forall a ok, ~ is_synthesis (Subprocess a ok)) as Hsub.
  { intros a ok (c & ok' & H). discriminate H. }
  unfold try_except, bind, load_model.
  destruct (Path.endswith (Path.lower (reference args)) ".wav").
  - rewrite Hload. cbn [is_Exception ret snd]. exists [].
    rewrite remove_temp_trace, app_nil_r. split; [done|]. split; [constructor|].
    intros p Hp. unfold remove_temp. done.
  - destruct (ffmpeg _ _) as [wav|]; rewrite Hload; cbn [is_Exception ret snd].
    + exists [Subprocess (convert_command (reference args) temp) true].
      rewrite remove_temp_trace. split; [done|]. split; [by repeat constructor|].
      intros p Hp. rewrite remove_temp_after_conversion by done.
      simpl. by rewrite !lookup_insert_ne.
    + exists [Subprocess (convert_command (reference args) temp) false].
      rewrite remove_temp_trace. split; [done|]. split; [by repeat constructor|].
      intros p Hp. unfold remove_temp. cbn [andb]. simpl.
      by rewrite lookup_delete_ne, lookup_insert_ne.
Qed.

(** When the model cannot be loaded, the engine is never called and only
    the temporary file may have been touched. *)
Theorem load_failure_means_no_synthesis :
  (forall w0, TTS w0 = None) ->
  Forall (fun e => ~ is_synthesis e) (new_events w (snd gen)) /\
  (forall p, p <> temp -> fs (snd gen) !! p = fs w !! p).
Proof.
  intros Hload. destruct (generate_load_failure Hload) as (evs & Htr & Hev & Hfs).
  by rewrite (new_events_app _ _ _ Htr).
Qed.

(** So after a failed load the exit status only reflects what was on disk
    before: lines 362-396 end with status 0 exactly when an output file
    already existed, although nothing was synthesized. *)
Theorem load_failure_exit_status :
  (forall w0, TTS w0 = None) -> output args <> temp ->
  fst (bind (generate abspath ffmpeg mktemp TTS args text gen_params)
         (fun _ => exit_by_output args) w)
  = Raised (SystemExit (if exists_ w (output args) then 0 else 1)).
Proof.
  intros Hload Hne. destruct (generate_load_failure Hload) as (evs & _ & _ & Hfs).
  unfold bind.
  destruct (generate_returns abspath ffmpeg mktemp TTS args text gen_params w) as [w' Hgen].
  rewrite Hgen in *. cbn [snd] in Hfs. unfold exit_by_output, raise, exists_.
  rewrite (Hfs _ Hne). by destruct (fs w !! output args).
Qed.

(** The good case of a short text: with a [.wav] reference, a model that
    loads and an engine call that succeeds, lines 362-396 write the engine's
    audio to the output path, touch nothing else, and end with status 0. *)
Theorem short_text_success (tts : tts_model) (audio : string) :
  Path.endswith (Path.lower (reference args)) ".wav" = true ->
  TTS w = Some tts ->
  length text <= 500 ->
  tts w (TtsCall text (reference args) (arg_language args) (output args) gen_params)
  = Some audio ->
  bind (generate abspath ffmpeg mktemp TTS args text gen_params)
    (fun _ => exit_by_output args) w
  = (Raised (SystemExit 0),
     log (Synthesis (TtsCall text (reference args) (arg_language args) (output args)
                       gen_params) true)
       (write_file (output args) audio w)).
Proof.
  intros Hext Hload Hlen Hok. unfold bind, generate.
  pose proof (auto_convert_cases (reference args) w) as Hc. cbv zeta in Hc.
  rewrite Hext in Hc. rewrite Hc.
  unfold try_except, bind, load_model. rewrite Hload.
  unfold synthesize. destruct (Nat.ltb_spec 500 (length text)) as [?|_]; [lia|].
  unfold clone_voice, bind, tts_to_file. rewrite Hok.
  cbn [ret remove_temp andb]. unfold exit_by_output, raise, exists_. simpl.
  by rewrite lookup_insert_eq.
Qed.

(** The same case with a failing engine call: nothing is written, and the
    status is 0 if an output file was already there, 1 otherwise. *)
Theorem short_text_failure (tts : tts_model) :
  Path.endswith (Path.lower (reference args)) ".wav" = true ->
  TTS w = Some tts ->
  length text <= 500 ->
  tts w (TtsCall text (reference args) (arg_language args) (output args) gen_params)
  = None ->
  bind (generate abspath ffmpeg mktemp TTS args text gen_params)
    (fun _ => exit_by_output args) w
  = (Raised (SystemExit (if exists_ w (output args) then 0 else 1)),
     log (Synthesis (TtsCall text (reference args) (arg_language args) (output args)
                       gen_params) false) w).
Proof.
  intros Hext Hload Hlen Hfail. unfold bind, generate.
  pose proof (auto_convert_cases (reference args) w) as Hc. cbv zeta in Hc.
  rewrite Hext in Hc. rewrite Hc.
  unfold try_except, bind, load_model. rewrite Hload.
  unfold synthesize. destruct (Nat.ltb_spec 500 (length text)) as [?|_]; [lia|].
  unfold clone_voice, bind, tts_to_file. rewrite Hfail.
  cbn [is_Exception ret remove_temp andb]. unfold exit_by_output, raise, exists_. simpl.
  by destruct (fs w !! output args).
Qed.

End Conversion.

(** ** The exit status and the web backend *)

Section ExitStatus.

Variable abspath : string -> string.
Variable ffmpeg : process_runner.
Variable mktemp : world -> string.
Variable utf8_decode : string -> option str.
Variable TTS : world -> option tts_model.
Variable ambiguity_first : bool.

(** The program only ever exits with status 0, 1 or 2, and with 2 exactly
    for a command line that shows no help and is refused with a usage
    message. *)
Theorem exit_status_range (argv : list argument) (w : world) :
  let code := fst (run abspath ffmpeg mktemp utf8_decode TTS ambiguity_first argv w) in
  (code = 0%Z \/ code = 1%Z \/ code = 2%Z) /\
  (code = 2%Z <-> help_shown ambiguity_first argv = false /\ usage_error argv = true).
Proof.
  intros code. subst code.
  pose proof (run_cases abspath ffmpeg mktemp utf8_decode TTS ambiguity_first argv w) as H.
  cbv zeta in H.
  destruct (help_shown ambiguity_first argv).
  { rewrite H. cbn [fst]. split; [auto|]. split; [done|]. by intros [? _]. }
  destruct (usage_error argv).
  { rewrite H. cbn [fst]. split; [auto|done]. }
  destruct (input_error utf8_decode (options argv) w).
  { rewrite H. cbn [fst]. split; [auto|]. split; [done|]. by intros [_ ?]. }
  destruct H as [w' ->]. cbn [fst].
  destruct (exists_ w' _); (split; [auto|]); (split; [done|]); by intros [_ ?].
Qed.

End ExitStatus.

Section Backend.

Variable tts : tts_model.
Variable mktemp : world -> string.
Variable engine_defaults : gen_params.
Variable str_of_exn : exn -> string.

(** [predict] never raises and answers with exactly one of an output path
    and an error message. Without a text or a reference it calls nothing and
    changes nothing. Otherwise it calls the engine once against a fresh
    temporary file; when that call fails the empty temporary file is left on
    disk. *)
Theorem predict_outcomes (text : option str) (audio_file : option string)
    (language : string) (w : world) :
  let r := App.predict tts mktemp engine_defaults str_of_exn text audio_file language w in
  let temp := mktemp w in
  let c := TtsCall (default [] text) (default "" audio_file) language temp engine_defaults in
  ((exists path, fst r = Returned (Some path, None)) \/
   (exists msg, fst r = Returned (None, Some msg))) /\
  (given_text text = false \/ given_path audio_file = false ->
   r = (Returned (None, Some App.missing_input_message), w)) /\
  (given_text text = true -> given_path audio_file = true ->
   match tts (write_file temp "" w) c with
   | Some audio =>
       r = (Returned (Some temp, None),
            log (Synthesis c true) (write_file temp audio (write_file temp "" w)))
   | None =>
       fst r = Returned (None, Some (str_of_exn EngineError)) /\
       fs (snd r) !! temp = Some (File "") /\
       new_events w (snd r) = [Synthesis c false]
   end).
Proof.
  intros r temp c. subst r. unfold App.predict.
  destruct (given_text text) eqn:Ht, (given_path audio_file) eqn:Ha; cbn [negb orb];
    try (split; [right; by eexists|]; split; [done|]; intros; congruence).
  fold temp. fold c. unfold try_except, bind, tts_to_file.
  destruct (tts (write_file temp "" w) c) as [audio|] eqn:Hc; cbn [is_Exception ret fst snd].
  - split; [left; by eexists|]. split; [by intros [?|?]|]. intros _ _. done.
  - split; [right; by eexists|]. split; [by intros [?|?]|]. intros _ _.
    split; [done|]. split; [simpl; apply lookup_insert_eq|].
    by apply new_events_app.
Qed.

End Backend.

(** ** The further properties on sample runs *)

Section MoreSampleRuns.

Import Samples.

Local Abbreviation run_long tts ffmpeg w :=
  (process_long_text abspath ffmpeg tts "ref.wav" thirty_sentences "out.wav" "en" 250
     neutral_params w).
Local Abbreviation part n := (part_filename (parts_dir_of abspath "out.wav") n).
Local Abbreviation run_strict tts ffmpeg w :=
  (process_long_text_strict abspath ffmpeg tts "ref.wav" thirty_sentences "out.wav" "en"
     250 neutral_params w).
Local Abbreviation run_canonical tts ffmpeg w :=
  (process_long_text_strict abspath ffmpeg tts "/w/ref.wav" thirty_sentences "/w/out.wav"
     "en" 250 neutral_params w).
Local Abbreviation finish TTS args w :=
  (bind (generate abspath ffmpeg_ok mktemp TTS args (py "Hello") neutral_params)
     (fun _ => exit_by_output args) w).

Lemma thirty_is_long : 1 < length (split_sentences 250 thirty_sentences).
Proof. vm_compute. lia. Defined.

Lemma text_without_terminator_is_one_segment_witness :
  (forall c, c ∈ no_terminator -> is_terminator c = false) /\
  split_sentences 250 no_terminator = [no_terminator].
Proof.
  assert (forall c, c ∈ no_terminator -> is_terminator c = false) as H.
  { intros c Hc. apply elem_of_replicate in Hc as [-> _]. reflexivity. }
  split; [exact H|].
  rewrite (text_without_terminator_is_one_segment 250 no_terminator H).
  vm_compute. reflexivity.
Defined.

Lemma text_under_twenty_is_one_segment_witness :
  length (py "Hi. Yes! No?") < 20 /\
  split_sentences 250 (py "Hi. Yes! No?") = [py "Hi. Yes! No?"].
Proof.
  assert (length (py "Hi. Yes! No?") < 20) as H by (vm_compute; lia).
  split; [exact H|].
  exact (text_under_twenty_is_one_segment 250 (py "Hi. Yes! No?") H).
Defined.


Lemma reference_is_no_part (j : nat) :
  "/w/ref.wav" <> part_filename (parts_dir_of abspath "/w/out.wav") j.
Proof.
  rewrite part_filename_eq. intros H.
  apply (f_equal (String.get 3)) in H. vm_compute in H. discriminate H.
Defined.





Lemma temporary_wav_is_removed_witness :
  Path.endswith (Path.lower (reference args_mp3)) ".wav" = false /\
  exists_ (snd (generate abspath ffmpeg_ok mktemp TTS_ok args_mp3 (py "Hello") neutral_params
                  empty_world)) "/tmp/tmpabc.wav" = false.
Proof.
  assert (Path.endswith (Path.lower (reference args_mp3)) ".wav" = false) as H
    by (vm_compute; reflexivity).
  split; [exact H|].
  exact (temporary_wav_is_removed abspath ffmpeg_ok mktemp TTS_ok args_mp3 (py "Hello")
           neutral_params empty_world H (ex_intro _ "JOINED" eq_refl)).
Defined.

Lemma load_failure_means_no_synthesis_witness :
  (forall w0, TTS_down w0 = None) /\
  Forall (fun e => ~ is_synthesis e)
    (new_events empty_world
       (snd (generate abspath ffmpeg_ok mktemp TTS_down args_mp3 (py "Hello") neutral_params
               empty_world))).
Proof.
  split; [reflexivity|].
  exact (proj1 (load_failure_means_no_synthesis abspath ffmpeg_ok mktemp TTS_down args_mp3
                  (py "Hello") neutral_params empty_world (fun _ => eq_refl))).
Defined.

Lemma load_failure_exit_status_witness :
  (forall w0, TTS_down w0 = None) /\
  output args_wav <> mktemp world_with_old_output /\
  fst (finish TTS_down args_wav world_with_old_output) = Raised (SystemExit 0).
Proof.
  assert (output args_wav <> mktemp world_with_old_output) as H by (vm_compute; discriminate).
  split; [reflexivity|]. split; [exact H|].
  rewrite (load_failure_exit_status abspath ffmpeg_ok mktemp TTS_down args_wav (py "Hello")
             neutral_params world_with_old_output (fun _ => eq_refl) H).
  vm_compute. reflexivity.
Defined.

Lemma short_text_success_witness :
  length (py "Hello") <= 500 /\
  fst (finish TTS_ok args_wav world_with_reference) = Raised (SystemExit 0).
Proof.
  assert (length (py "Hello") <= 500) as H by (vm_compute; lia).
  split; [exact H|].
  rewrite (short_text_success abspath ffmpeg_ok mktemp TTS_ok args_wav (py "Hello")
             neutral_params world_with_reference tts_ok "RIFF" eq_refl eq_refl H eq_refl).
  reflexivity.
Defined.

Lemma short_text_failure_witness :
  length (py "Hello") <= 500 /\
  fst (finish TTS_broken args_wav world_with_old_output) = Raised (SystemExit 0) /\
  fst (finish TTS_broken args_wav world_with_reference) = Raised (SystemExit 1).
Proof.
  assert (length (py "Hello") <= 500) as H by (vm_compute; lia).
  split; [exact H|]. split.
  - rewrite (short_text_failure abspath ffmpeg_ok mktemp TTS_broken args_wav (py "Hello")
               neutral_params world_with_old_output tts_down eq_refl eq_refl H eq_refl).
    vm_compute. reflexivity.
  - vm_compute. reflexivity.
Defined.

End MoreSampleRuns.
